(** * kpub: the topic channel of the pub/sub character device

    A shallow embedding of the file operations and the sysfs attribute
    stores of the kpub kernel module (the version with [struct topic]
    carrying [msg_size], [msg_count], [wp], [rp], [len] and [rcount]),
    followed by the properties of the channel.

    Conventions of the embedding.
    - Every C integer is a [Z]; the wrap-around of [uint32_t], [size_t]
      and [loff_t] arithmetic is written out with [u32], [u64] and [s64].
    - The topic mutex serialises the operations, so an operation is a
      function from the state before it to the state after it.  The exits
      taken when a signal interrupts the acquisition of the mutex
      ([-ERESTARTSYS]) and when a user pointer faults ([-EFAULT]) change
      nothing in the topic and are not part of the model.
    - A call that goes to sleep on a wait queue is the outcome [Sleeps]:
      the topic is unchanged and the caller re-runs the loop test when it
      is woken up.
    - Undefined behaviour of the C code (a division by a zero [msg_size],
      a copy through a NULL [buf], a copy that leaves the allocated buffer)
      is the outcome [Oops]. *)

From Stdlib Require Import ZArith List Bool Lia.
From Stdlib Require Import Strings.Byte.
Import ListNotations.
Local Open Scope Z_scope.

(** ** Machine integers *)

Definition u32 (z : Z) : Z := z mod 2 ^ 32.
Definition u64 (z : Z) : Z := z mod 2 ^ 64.
Definition s64 (z : Z) : Z := (z + 2 ^ 63) mod 2 ^ 64 - 2 ^ 63.

(** ** Constants of the kernel headers the module includes

    The error numbers of [errno-base.h], the mode and flag bits of [fs.h]
    and [fcntl.h] and the event bits of [poll.h], with the values Linux
    gives them. *)

Definition EBADF : Z := 9.
Definition EAGAIN : Z := 11.
Definition ENOMEM : Z := 12.
Definition EACCES : Z := 13.
Definition EBUSY : Z := 16.
Definition EINVAL : Z := 22.

Definition FMODE_READ : Z := 1.
Definition FMODE_WRITE : Z := 2.
Definition O_NONBLOCK : Z := 2048.

Definition POLLIN : Z := 1.
Definition POLLOUT : Z := 4.
Definition POLLRDNORM : Z := 64.
Definition POLLWRNORM : Z := 256.

(** [#define MAX_MSG_COUNT 64] *)
Definition MAX_MSG_COUNT : Z := 64.

(** ** Data *)

(** [struct topic], without the device plumbing.  [buf = None] is the NULL
    pointer of a topic that was never opened. *)
Record topic : Type := mkTopic {
  msg_size : Z;
  msg_count : Z;
  nreaders : Z;
  nwriters : Z;
  wp : Z;
  rp : Z;
  len : Z;
  rcount : Z;
  buf : option (list byte)
}.

(** The fields of [struct file] the module looks at. *)
Record file : Type := mkFile {
  f_mode : Z;
  f_flags : Z;
  f_pos : Z
}.

(** What a call does to its caller. *)
Inductive outcome : Type :=
| Returns (r : Z)
| Sleeps
| Oops.

(** [size_t size = topic->msg_size * topic->msg_count;]  The product is
    taken in [uint32_t] and then widened. *)
Definition size (t : topic) : Z := u32 (msg_size t * msg_count t).

Definition set_f_pos (f : file) (off : Z) : file :=
  mkFile (f_mode f) (f_flags f) off.

(** [file->f_mode & FMODE_READ && !(file->f_mode & FMODE_WRITE)] *)
Definition reader_mode (f : file) : bool :=
  negb (Z.land (f_mode f) FMODE_READ =? 0) && (Z.land (f_mode f) FMODE_WRITE =? 0).

(** [file->f_mode & FMODE_WRITE && !(file->f_mode & FMODE_READ)] *)
Definition writer_mode (f : file) : bool :=
  negb (Z.land (f_mode f) FMODE_WRITE =? 0) && (Z.land (f_mode f) FMODE_READ =? 0).

(** [file->f_flags & O_NONBLOCK] *)
Definition nonblock (f : file) : bool :=
  negb (Z.land (f_flags f) O_NONBLOCK =? 0).

(** ** The sysfs attributes [msg_size] and [msg_count]

    [v] is the value [*(uint32_t * )buf] the store reads from the sysfs
    buffer and [count] the number of bytes written to the attribute (the
    parameter [len] of the C functions).  [PAGE_SIZE], the bound
    [MAX_MSG_SIZE], comes from the architecture and is a parameter. *)

Section Attributes.

Variable PAGE_SIZE : Z.

Definition MAX_MSG_SIZE : Z := PAGE_SIZE.

Definition msg_size_store (t : topic) (v count : Z) : Z * topic :=
  if count >? 4 then (- EINVAL, t)
  else if negb (nreaders t =? 0) || negb (nwriters t =? 0) then (- EINVAL, t)
  else
    let v := u32 v in
    if v >? MAX_MSG_SIZE
    then (- EINVAL,
          mkTopic 0 (msg_count t) (nreaders t) (nwriters t)
                  (wp t) (rp t) (len t) (rcount t) (buf t))
    else (count,
          mkTopic v (msg_count t) (nreaders t) (nwriters t)
                  (wp t) (rp t) (len t) (rcount t) (buf t)).

Definition msg_count_store (t : topic) (v count : Z) : Z * topic :=
  if count >? 4 then (- EINVAL, t)
  else if negb (nreaders t =? 0) || negb (nwriters t =? 0) then (- EINVAL, t)
  else
    let v := u32 v in
    if v >? MAX_MSG_COUNT
    then (- EINVAL,
          mkTopic (msg_size t) 0 (nreaders t) (nwriters t)
                  (wp t) (rp t) (len t) (rcount t) (buf t))
    else (count,
          mkTopic (msg_size t) v (nreaders t) (nwriters t)
                  (wp t) (rp t) (len t) (rcount t) (buf t)).

End Attributes.

(** ** The file operations *)

(** [kpub_open].  [kzalloc_ok] tells whether the allocation of the buffer,
    when one is needed, succeeds. *)
Definition kpub_open (kzalloc_ok : bool) (t : topic) (f : file)
  : Z * topic * file :=
  if (msg_size t =? 0) || (msg_count t =? 0) then (- ENOMEM, t, f)
  else
    let b :=
      match buf t with
      | Some b => Some b
      | None =>
          if kzalloc_ok then Some (repeat x00 (Z.to_nat (size t))) else None
      end in
    match b with
    | None => (- ENOMEM, t, f)
    | Some b =>
        if reader_mode f then
          (0,
           mkTopic (msg_size t) (msg_count t) (u32 (nreaders t + 1)) (nwriters t)
                   (wp t) (wp t) 0 (rcount t) (Some b),
           set_f_pos f (wp t))
        else if writer_mode f then
          (0,
           mkTopic (msg_size t) (msg_count t) (nreaders t) (u32 (nwriters t + 1))
                   (wp t) (wp t) 0 (rcount t) (Some b),
           set_f_pos f (wp t))
        else
          (- EACCES,
           mkTopic (msg_size t) (msg_count t) (nreaders t) (nwriters t)
                   (wp t) (rp t) (len t) (rcount t) (Some b),
           f)
    end.

(** [kpub_release] *)
Definition kpub_release (t : topic) (f : file) : Z * topic :=
  if reader_mode f then
    (0, mkTopic (msg_size t) (msg_count t) (u32 (nreaders t - 1)) (nwriters t)
                (wp t) (rp t) (len t) (rcount t) (buf t))
  else if writer_mode f then
    (0, mkTopic (msg_size t) (msg_count t) (nreaders t) (u32 (nwriters t - 1))
                (wp t) (rp t) (len t) (rcount t) (buf t))
  else (- EACCES, t).

(** [if (x == size) x = 0;], the wrap the module applies to a cursor after
    it has advanced. *)
Definition wrap_at (sz x : Z) : Z := if x =? sz then 0 else x.

(** Whether the [n] bytes at offset [at_] lie inside the allocated buffer
    [b].  A copy of no bytes touches none, wherever it is aimed. *)
Definition in_buffer (b : list byte) (at_ n : Z) : bool :=
  (n =? 0) || ((0 <=? at_) && (at_ + n <=? Z.of_nat (length b))).

(** [kpub_read].  [count] is the parameter [len], [f_pos f] is [*off].  The
    result carries the bytes handed to [copy_to_user]; the buffer holds the
    bytes [kzalloc] gave it, and a copy out of [&topic->buf[*off]] that
    leaves them is the outcome [Oops]. *)
Definition kpub_read (t : topic) (f : file) (count : Z)
  : outcome * topic * file * list byte :=
  let off := f_pos f in
  if off =? wp t then
    ((if nonblock f then Returns (- EAGAIN) else Sleeps), t, f, [])
  else
    match buf t with
    | None => (Oops, t, f, [])
    | Some b =>
        let n :=
          if wp t >? off
          then Z.min count (u64 (wp t - off))
          else Z.min count (u64 (size t - off)) in
        if negb (in_buffer b off n) then (Oops, t, f, []) else
        let out := firstn (Z.to_nat n) (skipn (Z.to_nat off) b) in
        let off' := wrap_at (size t) (u64 (off + n)) in
        let rcount' := u32 (rcount t - 1) in
        let t' :=
          if rcount' =? 0
          then mkTopic (msg_size t) (msg_count t) (nreaders t) (nwriters t)
                       (wp t) (wrap_at (size t) (u32 (rp t + n)))
                       (u32 (len t - n)) rcount' (buf t)
          else mkTopic (msg_size t) (msg_count t) (nreaders t) (nwriters t)
                       (wp t) (rp t) (len t) rcount' (buf t) in
        (Returns n, t', set_f_pos f (s64 off'), out)
    end.

(** [copy_from_user(&topic->buf[topic->wp], buf, len)] on the contents of
    the buffer, for a copy that lies inside it. *)
Definition copy_in (b : list byte) (at_ : Z) (data : list byte) : list byte :=
  firstn (Z.to_nat at_) b ++ data
  ++ skipn (Z.to_nat at_ + length data) b.

(** [kpub_write].  [data] is the user buffer, whose length is the parameter
    [len].  The result carries the bytes copied into the topic; a copy into
    [&topic->buf[topic->wp]] that leaves the bytes [kzalloc] gave the
    buffer is the outcome [Oops]. *)
Definition kpub_write (t : topic) (f : file) (data : list byte)
  : outcome * topic * list byte :=
  let count := Z.of_nat (length data) in
  let off := f_pos f in
  if msg_size t =? 0 then (Oops, t, [])
  else if negb (count mod msg_size t =? 0) then (Returns (- EINVAL), t, [])
  else if count >? size t then (Returns (- EINVAL), t, [])
  else if len t =? size t then
    ((if nonblock f then Returns (- EAGAIN) else Sleeps), t, [])
  else
    match buf t with
    | None => (Oops, t, [])
    | Some b =>
        let n :=
          if wp t >=? off
          then Z.min count (u64 (size t - wp t))
          else Z.min count (u64 (off - wp t)) in
        if negb (in_buffer b (wp t) n) then (Oops, t, []) else
        let taken := firstn (Z.to_nat n) data in
        (Returns n,
         mkTopic (msg_size t) (msg_count t) (nreaders t) (nwriters t)
                 (wrap_at (size t) (u32 (wp t + n))) (rp t)
                 (u32 (len t + n)) (nreaders t)
                 (Some (copy_in b (wp t) taken)),
         taken)
    end.

(** [kpub_poll] *)
Definition kpub_poll (t : topic) (f : file) : Z :=
  let m0 := 0 in
  let m1 := if len t >? 0 then Z.lor m0 (Z.lor POLLIN POLLRDNORM) else m0 in
  let m2 := if len t =? size t then Z.lor m1 (Z.lor POLLOUT POLLWRNORM) else m1 in
  m2.

(** What a caller of [poll] reads off the mask. *)
Definition reports_readable (mask : Z) : bool := negb (Z.land mask POLLIN =? 0).
Definition reports_writable (mask : Z) : bool := negb (Z.land mask POLLOUT =? 0).

(** ** What the specification says, for comparison with the code *)

(** Following the specification's words (write path, step 3): the accepted
    length is the requested one clamped to [capacity_bytes - write_pos]
    when [write_pos >= tail_pos] and to [tail_pos - write_pos] otherwise. *)
Definition spec_accepted (t : topic) (count : Z) : Z :=
  if wp t >=? rp t
  then Z.min count (size t - wp t)
  else Z.min count (rp t - wp t).

(** Following the specification's words (readiness query): readable iff
    [handle.cursor != write_pos]. *)
Definition spec_readable (t : topic) (f : file) : bool :=
  negb (f_pos f =? wp t).

(** Following the specification's words (readiness query): writable iff
    [pending_len < capacity_bytes]. *)
Definition spec_writable (t : topic) : bool :=
  len t <? size t.

(** ** A topic and the files open on it

    The glue of the virtual file system around the file operations: [open]
    installs the file in the descriptor table when [kpub_open] returns 0,
    [read] and [write] are refused with [-EBADF] on a file not opened for
    them, and the position the operation leaves in [*off] is stored back
    into the file.  Allocations succeed. *)

Record sys : Type := mkSys {
  top : topic;
  fdt : list (option file)
}.

Inductive op : Type :=
| OpOpen (mode flags : Z)
| OpClose (fd : nat)
| OpRead (fd : nat) (count : N)
| OpWrite (fd : nat) (data : list byte).

(** The outcome of an operation and the bytes it moved: the bytes handed to
    the reader, or the bytes taken from the writer. *)
Record event : Type := mkEvent {
  ev_op : op;
  ev_out : outcome;
  ev_bytes : list byte
}.

Fixpoint set_fd (fds : list (option file)) (fd : nat) (x : option file)
  : list (option file) :=
  match fds, fd with
  | [], _ => []
  | _ :: rest, O => x :: rest
  | y :: rest, S k => y :: set_fd rest k x
  end.

Definition get_fd (fds : list (option file)) (fd : nat) : option file :=
  match nth_error fds fd with
  | Some (Some f) => Some f
  | _ => None
  end.

Definition step (s : sys) (o : op) : sys * event :=
  match o with
  | OpOpen mode flags =>
      let '(r, t', f') := kpub_open true (top s) (mkFile mode flags 0) in
      if r =? 0
      then (mkSys t' (fdt s ++ [Some f']),
            mkEvent o (Returns (Z.of_nat (length (fdt s)))) [])
      else (mkSys t' (fdt s), mkEvent o (Returns r) [])
  | OpClose fd =>
      match get_fd (fdt s) fd with
      | Some f =>
          let '(r, t') := kpub_release (top s) f in
          (mkSys t' (set_fd (fdt s) fd None), mkEvent o (Returns r) [])
      | None => (s, mkEvent o (Returns (- EBADF)) [])
      end
  | OpRead fd count =>
      match get_fd (fdt s) fd with
      | Some f =>
          if Z.land (f_mode f) FMODE_READ =? 0
          then (s, mkEvent o (Returns (- EBADF)) [])
          else
            let '(r, t', f', out) := kpub_read (top s) f (Z.of_N count) in
            (mkSys t' (set_fd (fdt s) fd (Some f')), mkEvent o r out)
      | None => (s, mkEvent o (Returns (- EBADF)) [])
      end
  | OpWrite fd data =>
      match get_fd (fdt s) fd with
      | Some f =>
          if Z.land (f_mode f) FMODE_WRITE =? 0
          then (s, mkEvent o (Returns (- EBADF)) [])
          else
            let '(r, t', taken) := kpub_write (top s) f data in
            (mkSys t' (fdt s), mkEvent o r taken)
      | None => (s, mkEvent o (Returns (- EBADF)) [])
      end
  end.

(** Runs the operations in order; the log is in the order of the calls. *)
Fixpoint run (s : sys) (ops : list op) : sys * list event :=
  match ops with
  | [] => (s, [])
  | o :: rest =>
      let '(s1, e) := step s o in
      let '(s2, log) := run s1 rest in
      (s2, e :: log)
  end.

(** The states a topic goes through under [open], [close], [read] and
    [write]. *)
Inductive reachable (s0 : sys) : sys -> Prop :=
| reachable_start : reachable s0 s0
| reachable_step s o : reachable s0 s -> reachable s0 (fst (step s o)).

(** All the bytes the reads of the log returned, in order. *)
Fixpoint bytes_read (log : list event) : list byte :=
  match log with
  | [] => []
  | e :: rest =>
      match ev_op e with
      | OpRead _ _ => ev_bytes e ++ bytes_read rest
      | _ => bytes_read rest
      end
  end.

(** All the bytes the writes of the log accepted, in order. *)
Fixpoint bytes_written (log : list event) : list byte :=
  match log with
  | [] => []
  | e :: rest =>
      match ev_op e with
      | OpWrite _ _ => ev_bytes e ++ bytes_written rest
      | _ => bytes_written rest
      end
  end.

Fixpoint is_prefix (xs ys : list byte) : bool :=
  match xs, ys with
  | [], _ => true
  | _ :: _, [] => false
  | x :: xs', y :: ys' => Byte.eqb x y && is_prefix xs' ys'
  end.

(** A run of [k] reads that complete, by any files, with no other
    operation in between. *)
Inductive reads : nat -> topic -> topic -> Prop :=
| reads_none t : reads O t t
| reads_more k t f count n t1 f1 out t2 :
    kpub_read t f count = (Returns n, t1, f1, out) ->
    0 <= n ->
    reads k t1 t2 ->
    reads (S k) t t2.

(** ** The topic of the examples: four slots of four bytes *)

Definition fresh_topic : topic := mkTopic 4 4 0 0 0 0 0 0 None.
Definition boot : sys := mkSys fresh_topic [].

Definition O_RDONLY : Z := 0.
Definition O_WRONLY : Z := 1.

Definition msgA : list byte := [x01; x02; x03; x04; x05; x06; x07; x08].
Definition msgB : list byte := [x11; x12; x13; x14; x15; x16; x17; x18].
Definition msgC : list byte :=
  [x21; x22; x23; x24; x25; x26; x27; x28;
   x29; x2a; x2b; x2c; x2d; x2e; x2f; x30].
Definition msgD : list byte :=
  [x31; x32; x33; x34; x35; x36; x37; x38; x39; x3a; x3b; x3c].

(** The state a list of operations leaves behind, and its log. *)
Definition after (ops : list op) : sys := fst (run boot ops).
Definition log_of (ops : list op) : list event := snd (run boot ops).

(** The file behind a descriptor that is known to be open. *)
Definition file_of (s : sys) (fd : nat) : file :=
  match get_fd (fdt s) fd with
  | Some f => f
  | None => mkFile 0 0 0
  end.

(** One writer (descriptor 0) and one reader (descriptor 1), nothing
    published yet. *)
Definition opened : list op :=
  [OpOpen FMODE_WRITE O_WRONLY; OpOpen FMODE_READ O_RDONLY].

(** The writer has published eight bytes; nothing is read yet. *)
Definition published : list op := opened ++ [OpWrite 0 msgA].

(** The reader takes the first four of the eight bytes: the gate is back at
    zero with four bytes still to be read. *)
Definition half_read : list op := published ++ [OpRead 1 4].

(** The reader drains the first message in two reads of four bytes (the
    second one finds the gate at zero), then reads a second message in one
    go; the writer then publishes twelve bytes. *)
Definition short_reads : list op :=
  half_read ++ [OpRead 1 4; OpWrite 0 msgB; OpRead 1 8; OpWrite 0 msgD].

(** The reader drains the first message in one read and the writer
    publishes a second one, which takes [wp] round to the start of the
    buffer; the second message, at offsets 8 to 15, is still to be read. *)
Definition lapped : list op :=
  published ++ [OpRead 1 8; OpWrite 0 msgB].

(** The writer goes on to publish sixteen bytes. *)
Definition overrun : list op := lapped ++ [OpWrite 0 msgC].

(** The writer fills the whole buffer in one call. *)
Definition filled : list op := opened ++ [OpWrite 0 msgC].

(** A second reader opens while the first message is still pending. *)
Definition late_open : list op :=
  published ++ [OpOpen FMODE_READ O_RDONLY].


(** ** Well-formed states

    What the C types and the bounds of the buffer impose on a state: the
    [uint32_t] fields are in range, [wp] and the cursor of every open file
    are offsets into the buffer, and the buffer, once allocated, has the
    size of the topic. *)

Definition is_u32 (z : Z) : Prop := 0 <= z < 2 ^ 32.

Definition file_ok (sz : Z) (o : option file) : Prop :=
  match o with
  | Some f => 0 <= f_pos f < sz
  | None => True
  end.

Record well_formed (s : sys) : Prop := mkWellFormed {
  wf_size : 0 < size (top s);
  wf_wp : 0 <= wp (top s) < size (top s);
  wf_buf : forall b, buf (top s) = Some b -> Z.of_nat (length b) = size (top s);
  wf_files : Forall (file_ok (size (top s))) (fdt s);
  wf_nreaders : is_u32 (nreaders (top s));
  wf_nwriters : is_u32 (nwriters (top s));
  wf_rp : is_u32 (rp (top s));
  wf_len : is_u32 (len (top s));
  wf_rcount : is_u32 (rcount (top s))
}.

(** A file is open only on a topic whose buffer has been allocated: the
    first open that succeeds allocates it, and nothing frees it while the
    topic lives. *)
Definition buffered (s : sys) : Prop :=
  forall fd f, get_fd (fdt s) fd = Some f -> buf (top s) <> None.

(** ** The registry of topics

    The module keeps its topics in the list [topics], newest first, and the
    minor numbers in use in the array [minor_nums]; [topic_mtx] serialises
    creation and removal.  A topic of the registry is its name, the minor
    number stored in [dev.id], and the channel state of the sections above.
    The character device, the kobject and the device of a topic live in the
    kernel: the calls that set them up are represented by what they
    return. *)

Definition E2BIG : Z := 7.
Definition ENODEV : Z := 19.

(** [#define NUM_TOPICS 256] and [#define MAX_STR_LEN 64] *)
Definition NUM_TOPICS : Z := 256.
Definition MAX_STR_LEN : Z := 64.

(** [a[i] = x] on an array held as a list. *)
Fixpoint list_set {A : Type} (l : list A) (i : nat) (x : A) : list A :=
  match l, i with
  | [], _ => []
  | _ :: rest, O => x :: rest
  | y :: rest, S k => y :: list_set rest k x
  end.

(** The loop of [reserve_minor_num], with [todo] iterations left and the
    loop variable at [i]. *)
Fixpoint reserve_scan (todo : nat) (i : Z) (m : list Z) : Z * list Z :=
  match todo with
  | O => (-1, m)
  | S k =>
      if nth (Z.to_nat i) m 0 =? 0
      then (i, list_set m (Z.to_nat i) 1)
      else reserve_scan k (i + 1) m
  end.

(** [reserve_minor_num]: the number reserved, or -1, and the array. *)
Definition reserve_minor_num (m : list Z) : Z * list Z :=
  reserve_scan (Z.to_nat NUM_TOPICS) 0 m.

(** [release_minor_num] *)
Definition release_minor_num (m : list Z) (minor_num : Z) : list Z :=
  list_set m (Z.to_nat minor_num) 0.

(** The C string held in an array of characters: the bytes before the
    first NUL.  For the buffer of a sysfs store, which the kernel ends with
    a NUL after the bytes written, the end of the list is that NUL. *)
Fixpoint cstr (l : list byte) : list byte :=
  match l with
  | [] => []
  | c :: rest => if Byte.eqb c x00 then [] else c :: cstr rest
  end.

Fixpoint bytes_eqb (xs ys : list byte) : bool :=
  match xs, ys with
  | [], [] => true
  | x :: xs', y :: ys' => Byte.eqb x y && bytes_eqb xs' ys'
  | _, _ => false
  end.

(** [strcmp(tp->name, buf) == 0].  [remove_topic_store] only compares
    buffers of fewer than [MAX_STR_LEN] bytes, so the comparison ends
    inside the array [name] even when the name fills it. *)
Definition same_name (name buf : list byte) : bool :=
  bytes_eqb (cstr name) (cstr buf).

Record entry : Type := mkEntry {
  e_name : list byte;
  e_id : Z;
  e_topic : topic
}.

Record registry : Type := mkRegistry {
  minor_nums : list Z;
  topics : list entry;
  topic_mtx : bool
}.

(** What the kernel answers to the calls of [create_topic_store]: whether
    [kzalloc] gives memory, and the values [cdev_add], [kobject_set_name]
    and [device_register] return (0, or a negative error number). *)
Record kcalls : Type := mkKcalls {
  kzalloc_topic : bool;
  cdev_add : Z;
  kobject_set_name : Z;
  device_register : Z
}.

(** The topic [kzalloc] hands out: every field zero, no buffer. *)
Definition zeroed_topic : topic := mkTopic 0 0 0 0 0 0 0 0 None.

(** [memcpy(topic->name, buf, len)] into the zeroed array [name]. *)
Definition filled_name (buf : list byte) : list byte :=
  buf ++ repeat x00 (Z.to_nat MAX_STR_LEN - length buf).

(** [create_topic_store].  [buf] holds the bytes written to the attribute,
    its length is the parameter [len].  The mutex is released on the
    successful path only.  A name of [MAX_STR_LEN] bytes leaves no NUL in
    the array; the [%s] of [kobject_set_name] then stops at the first byte
    of [dev], which [kzalloc] has zeroed and nothing has written yet, and
    the call answers as for any other name. *)
Definition create_topic_store (k : kcalls) (r : registry) (buf : list byte)
  : outcome * registry :=
  let count := Z.of_nat (length buf) in
  if count =? 0 then (Returns (- EINVAL), r)
  else if count >? MAX_STR_LEN then (Returns (- EINVAL), r)
  else if topic_mtx r then (Sleeps, r)
  else if negb (kzalloc_topic k)
  then (Returns (- ENOMEM), mkRegistry (minor_nums r) (topics r) true)
  else
    let '(minor_num, m) := reserve_minor_num (minor_nums r) in
    if minor_num <? 0
    then (Returns (- E2BIG), mkRegistry m (topics r) true)
    else if cdev_add k <? 0
    then (Returns (cdev_add k), mkRegistry m (topics r) true)
    else if kobject_set_name k <? 0
    then (Returns (kobject_set_name k), mkRegistry m (topics r) true)
    else if negb (device_register k =? 0)
    then (Returns (device_register k), mkRegistry m (topics r) true)
    else
      (Returns count,
       mkRegistry m
                  (mkEntry (filled_name buf) minor_num zeroed_topic :: topics r)
                  false).

(** The loop of [remove_topic_store]: the position in the list of the
    first topic whose name compares equal to [buf]. *)
Fixpoint find_topic (ts : list entry) (buf : list byte) : option nat :=
  match ts with
  | [] => None
  | e :: rest =>
      if same_name (e_name e) buf then Some O
      else option_map S (find_topic rest buf)
  end.

(** [list_del] of the node at position [pos]. *)
Fixpoint unlink (ts : list entry) (pos : nat) : list entry :=
  match ts, pos with
  | [], _ => []
  | _ :: rest, O => rest
  | e :: rest, S k => e :: unlink rest k
  end.

(** [delete_topic] of the topic at position [pos] of the list. *)
Definition delete_topic (r : registry) (pos : nat) : registry :=
  match nth_error (topics r) pos with
  | Some e =>
      mkRegistry (release_minor_num (minor_nums r) (e_id e))
                 (unlink (topics r) pos) (topic_mtx r)
  | None => r
  end.

(** [remove_topic_store] *)
Definition remove_topic_store (r : registry) (buf : list byte)
  : outcome * registry :=
  let count := Z.of_nat (length buf) in
  if count >=? MAX_STR_LEN then (Returns (- EINVAL), r)
  else if topic_mtx r then (Sleeps, r)
  else
    match find_topic (topics r) buf with
    | None => (Returns (- ENODEV), r)
    | Some pos =>
        let r' := delete_topic r pos in
        (Returns count, mkRegistry (minor_nums r') (topics r') false)
    end.

(** The loop of [kpub_exit]: [list_for_each_safe] deletes the topics one
    after the other, from the head of the list. *)
Fixpoint exit_loop (todo : nat) (r : registry) : registry :=
  match todo with
  | O => r
  | S k => exit_loop k (delete_topic r 0)
  end.

Definition kpub_exit (r : registry) : registry :=
  exit_loop (length (topics r)) r.

(** [name_show]: [strlen] of the name and the bytes copied out.  A name
    that fills the array has no NUL inside it and [strlen] runs past the
    array, into the fields of the registered [dev]. *)
Definition name_show (e : entry) : outcome * list byte :=
  if existsb (Byte.eqb x00) (e_name e)
  then (Returns (Z.of_nat (length (cstr (e_name e)))), cstr (e_name e))
  else (Oops, []).

(** The registry when the module is loaded. *)
Definition empty_registry : registry :=
  mkRegistry (repeat 0 (Z.to_nat NUM_TOPICS)) [] false.

(** The kernel answering every call with success. *)
Definition all_ok : kcalls := mkKcalls true 0 0 0.

(** What a registry is expected to satisfy: the array has its
    [NUM_TOPICS] entries, every topic of the list holds a minor number of
    the array that is marked in use, and no two topics hold the same one. *)
Record registry_ok (r : registry) : Prop := mkRegistryOk {
  rok_length : length (minor_nums r) = Z.to_nat NUM_TOPICS;
  rok_ids : forall e, In e (topics r) ->
            0 <= e_id e < NUM_TOPICS /\
            nth (Z.to_nat (e_id e)) (minor_nums r) 0 <> 0;
  rok_distinct : NoDup (map e_id (topics r))
}.

(** ** Counting the open files *)

(** Whether a slot of the descriptor table holds a file that passes [p]. *)
Definition open_as (p : file -> bool) (o : option file) : bool :=
  match o with
  | Some f => p f
  | None => false
  end.

(** The number of open files that pass [p]. *)
Definition count_open (p : file -> bool) (fds : list (option file)) : Z :=
  Z.of_nat (length (filter (open_as p) fds)).

(** What the operations keep about the counts: [nreaders] and [nwriters]
    are the numbers of files open for reading and for writing, as
    [uint32_t], and every open file is one or the other. *)
Definition counted (s : sys) : Prop :=
  nreaders (top s) = u32 (count_open reader_mode (fdt s)) /\
  nwriters (top s) = u32 (count_open writer_mode (fdt s)) /\
  forall fd f, get_fd (fdt s) fd = Some f ->
               reader_mode f = true \/ writer_mode f = true.

(** ** Reading the attributes back

    [msg_size_show] and [msg_count_show] print the value with
    [snprintf(buf, MAX_STR_LEN, "%u", ...)]: the decimal numeral of the
    value, of which at most [MAX_STR_LEN - 1] characters are stored, and
    the length of the whole numeral as the result. *)

(** The character of a decimal digit. *)
Definition digit (d : Z) : byte :=
  match Byte.of_N (Z.to_N (48 + d)) with
  | Some c => c
  | None => x00
  end.

(** The decimal numeral of [v], most significant digit first; ten digits
    are enough for a [uint32_t]. *)
Fixpoint decimal (digits : nat) (v : Z) : list byte :=
  match digits with
  | O => []
  | S k =>
      if v <? 10 then [digit v]
      else decimal k (v / 10) ++ [digit (v mod 10)]
  end.

Definition snprintf_u (sz v : Z) : Z * list byte :=
  let s := decimal 10 v in
  (Z.of_nat (length s), firstn (Z.to_nat (sz - 1)) s).

Definition msg_size_show (t : topic) : Z * list byte :=
  snprintf_u MAX_STR_LEN (msg_size t).

Definition msg_count_show (t : topic) : Z * list byte :=
  snprintf_u MAX_STR_LEN (msg_count t).

(** The number a decimal numeral stands for. *)
Definition numeral_value (s : list byte) : Z :=
  fold_left (fun acc c => acc * 10 + (Z.of_N (Byte.to_N c) - 48)) s 0.

(** Whether a byte is one of the characters 0 to 9. *)
Definition is_digit (c : byte) : bool :=
  (48 <=? Z.of_N (Byte.to_N c)) && (Z.of_N (Byte.to_N c) <=? 57).

(** The decimal numerals as they are written: at least one character,
    nothing but digits, and no zero in front except in the numeral of zero
    itself.  Every number has exactly one. *)
Definition canonical_numeral (s : list byte) : Prop :=
  s <> [] /\ forallb is_digit s = true /\ (hd x00 s = x30 -> s = [x30]).

(** ** A registry for the examples *)

Definition name_abc : list byte := [x61; x62; x63].
Definition name_xyz : list byte := [x78; x79; x7a].

(** A name that fills the array: [MAX_STR_LEN] letters and no NUL. *)
Definition long_name : list byte := repeat x61 (Z.to_nat MAX_STR_LEN).

(** The registry after the topic "abc" has been created. *)
Definition one_topic : registry :=
  snd (create_topic_store all_ok empty_registry name_abc).

(** The array with every minor number in use. *)
Definition full_table : list Z := repeat 1 (Z.to_nat NUM_TOPICS).

(** The kernel refusing [cdev_add] with [-ENOMEM]. *)
Definition cdev_add_fails : kcalls := mkKcalls true (- ENOMEM) 0 0.

(** After [lapped] the writer publishes four more bytes: [wp] is at 4,
    behind the reader's cursor at 8. *)
Definition wrapped : list op := lapped ++ [OpWrite 0 [x31; x32; x33; x34]].

(** * Properties *)

(** ** Machine integers *)

Lemma u32_range (z : Z) : 0 <= u32 z < 2 ^ 32.
Proof. unfold u32. apply Z.mod_pos_bound. lia. Qed.

Lemma u32_small (z : Z) : 0 <= z < 2 ^ 32 -> u32 z = z.
Proof. intros H. unfold u32. apply Z.mod_small. exact H. Qed.

Lemma u64_range (z : Z) : 0 <= u64 z < 2 ^ 64.
Proof. unfold u64. apply Z.mod_pos_bound. lia. Qed.

Lemma u32_pred_zero : u32 (0 - 1) = 2 ^ 32 - 1.
Proof. reflexivity. Qed.

Lemma wrap_at_mod (sz x : Z) :
  0 <= x <= sz -> 0 < sz -> wrap_at sz x = x mod sz.
Proof.
  intros Hx Hsz. unfold wrap_at.
  destruct (Z.eqb_spec x sz) as [-> | Hne].
  - now rewrite Z.mod_same by lia.
  - rewrite Z.mod_small; lia.
Qed.

Lemma size_range (t : topic) : 0 <= size t < 2 ^ 32.
Proof. apply u32_range. Qed.

Lemma u64_small (z : Z) : 0 <= z < 2 ^ 64 -> u64 z = z.
Proof. intros H. unfold u64. apply Z.mod_small. exact H. Qed.

Lemma s64_small (z : Z) : - 2 ^ 63 <= z < 2 ^ 63 -> s64 z = z.
Proof. intros H. unfold s64. rewrite Z.mod_small; lia. Qed.

Lemma wrap_at_below (sz x : Z) : 0 <= x <= sz -> 0 < sz -> 0 <= wrap_at sz x < sz.
Proof.
  intros Hx Hsz. unfold wrap_at. destruct (Z.eqb_spec x sz); lia.
Qed.

(** ** Copies inside the buffer *)

Lemma in_buffer_fits (b : list byte) (at_ n : Z) :
  0 <= at_ -> at_ + n <= Z.of_nat (length b) -> in_buffer b at_ n = true.
Proof.
  intros Hat Hfit. unfold in_buffer.
  destruct (Z.leb_spec 0 at_); [| lia].
  destruct (Z.leb_spec (at_ + n) (Z.of_nat (length b))); [| lia].
  apply orb_true_r.
Qed.

Lemma in_buffer_inside (b : list byte) (at_ n : Z) :
  in_buffer b at_ n = true -> 0 < n ->
  0 <= at_ /\ at_ + n <= Z.of_nat (length b).
Proof.
  unfold in_buffer. intros H Hn.
  destruct (Z.eqb_spec n 0); [lia |].
  destruct (Z.leb_spec 0 at_); [| discriminate].
  destruct (Z.leb_spec (at_ + n) (Z.of_nat (length b))); [| discriminate].
  lia.
Qed.


(** ** What a completed read and an accepted write do to the topic *)

(** A read that returns a count has found [wp] away from its cursor, has
    decremented [rcount], and has moved [rp] and [len] when, and only when,
    that brought [rcount] to zero. *)
Lemma kpub_read_completes (t : topic) (f : file) (count n : Z)
  (t' : topic) (f' : file) (out : list byte) :
  kpub_read t f count = (Returns n, t', f', out) ->
  0 <= n ->
  f_pos f <> wp t /\
  rcount t' = u32 (rcount t - 1) /\
  (if rcount t' =? 0
   then rp t' = wrap_at (size t) (u32 (rp t + n)) /\ len t' = u32 (len t - n)
   else rp t' = rp t /\ len t' = len t) /\
  wp t' = wp t /\ nreaders t' = nreaders t /\ nwriters t' = nwriters t /\
  msg_size t' = msg_size t /\ msg_count t' = msg_count t /\ buf t' = buf t.
Proof.
  unfold kpub_read. intros H Hn.
  destruct (Z.eqb_spec (f_pos f) (wp t)) as [Heq | Hne].
  - destruct (nonblock f); inversion H; subst; unfold EAGAIN in Hn; lia.
  - destruct (buf t) as [b |] eqn:Hb; [| discriminate].
    destruct (negb (in_buffer _ _ _)); [discriminate |].
    injection H as Hn' Ht' _ _.
    rewrite Hn' in Ht'. subst t'.
    split; [exact Hne |].
    destruct (u32 (rcount t - 1) =? 0) eqn:Hz; cbn [rcount rp len wp nreaders
      nwriters msg_size msg_count buf]; rewrite ?Hz; repeat split; auto.
Qed.

(** Follows [kpub_write] down to the copy in a hypothesis [H] that says
    the call returned a count [n], with [Hn : 0 <= n]: the exits that
    return an error, sleep or fault are discarded. *)
Ltac write_accepted H Hn :=
  unfold kpub_write in H;
  destruct (msg_size _ =? 0); [discriminate |];
  destruct (negb _); [inversion H; subst; unfold EINVAL in Hn; lia |];
  destruct (_ >? _); [inversion H; subst; unfold EINVAL in Hn; lia |];
  destruct (len _ =? size _) eqn:?Hroom;
    [destruct (nonblock _); inversion H; subst; unfold EAGAIN in Hn; lia |];
  apply Z.eqb_neq in Hroom;
  destruct (buf _) as [?b |] eqn:?Hbuf; [| discriminate];
  destruct (negb (in_buffer _ _ _)) eqn:?Hinside; [discriminate |];
  apply negb_false_iff in Hinside.

(** A write that returns a count has found room ([len <> size]), has set
    [rcount] to [nreaders] and has advanced [wp] and [len]. *)
Lemma kpub_write_accepts (t : topic) (f : file) (data : list byte) (n : Z)
  (t' : topic) (taken : list byte) :
  kpub_write t f data = (Returns n, t', taken) ->
  0 <= n ->
  len t <> size t /\
  rcount t' = nreaders t /\
  len t' = u32 (len t + n) /\
  wp t' = wrap_at (size t) (u32 (wp t + n)) /\
  rp t' = rp t /\ nreaders t' = nreaders t /\ nwriters t' = nwriters t /\
  msg_size t' = msg_size t /\ msg_count t' = msg_count t.
Proof.
  intros H Hn. write_accepted H Hn.
  injection H as Hn' Ht' _.
  rewrite Hn' in Ht'. subst t'.
  cbn [rcount rp len wp nreaders nwriters msg_size msg_count].
  repeat split; auto.
Qed.

(** A call that does not return a count leaves the topic alone. *)
Lemma kpub_write_refused (t : topic) (f : file) (data : list byte)
  (r : outcome) (t' : topic) (taken : list byte) :
  kpub_write t f data = (r, t', taken) ->
  (forall n, r = Returns n -> n < 0) ->
  t' = t.
Proof.
  unfold kpub_write. intros H Hr.
  destruct (msg_size t =? 0); [now inversion H |].
  destruct (negb _); [now inversion H |].
  destruct (_ >? _); [now inversion H |].
  destruct (len t =? size t); [now inversion H |].
  destruct (buf t) as [b |]; [| now inversion H].
  destruct (negb (in_buffer _ _ _)); [now inversion H |].
  injection H as Hres _ _.
  specialize (Hr _ (eq_sym Hres)).
  pose proof (u64_range (size t - wp t)). pose proof (u64_range (f_pos f - wp t)).
  destruct (wp t >=? f_pos f); lia.
Qed.

(** [k] reads in a row take [k] off [rcount], modulo 2^32. *)
Lemma reads_gate (k : nat) (t t' : topic) :
  reads k t t' ->
  0 <= rcount t < 2 ^ 32 ->
  rcount t' = u32 (rcount t - Z.of_nat k).
Proof.
  induction 1 as [t | k t f count n t1 f1 out t2 Hr Hn _ IH]; intros Hc.
  - rewrite Z.sub_0_r. symmetry. now apply u32_small.
  - destruct (kpub_read_completes _ _ _ _ _ _ _ Hr Hn) as (_ & Hrc & _).
    rewrite IH by (rewrite Hrc; apply u32_range).
    rewrite Hrc. unfold u32.
    rewrite Zminus_mod_idemp_l. f_equal. lia.
Qed.

(** As long as [rcount] stays above zero the reads reclaim nothing. *)
Lemma reads_frozen (k : nat) (t t' : topic) :
  reads k t t' ->
  Z.of_nat k < rcount t < 2 ^ 32 ->
  rcount t' = rcount t - Z.of_nat k /\ rp t' = rp t /\ len t' = len t.
Proof.
  induction 1 as [t | k t f count n t1 f1 out t2 Hr Hn _ IH]; intros Hc.
  - repeat split. lia.
  - destruct (kpub_read_completes _ _ _ _ _ _ _ Hr Hn) as (_ & Hrc & Hgate & _).
    rewrite u32_small in Hrc by lia.
    destruct (Z.eqb_spec (rcount t1) 0) as [Hz | Hnz]; [lia |].
    destruct Hgate as [Hrp Hlen].
    destruct IH as (IHc & IHrp & IHlen); [lia |].
    repeat split; [lia | congruence | congruence].
Qed.

(** The length a write accepts is clamped against the cursor of the file
    that writes, [*off], which is the value [wp] had when that file was
    opened; [rp] plays no part in it. *)
Lemma kpub_write_clamp (t : topic) (f : file) (data : list byte) (n : Z)
  (t' : topic) (taken : list byte) :
  kpub_write t f data = (Returns n, t', taken) ->
  0 <= n ->
  n = if wp t >=? f_pos f
      then Z.min (Z.of_nat (length data)) (u64 (size t - wp t))
      else Z.min (Z.of_nat (length data)) (u64 (f_pos f - wp t)).
Proof.
  intros H Hn. write_accepted H Hn.
  injection H as Hres _ _. now symmetry.
Qed.

(** An accepted write takes a prefix of the user buffer and copies it into
    the topic at [wp]. *)
Lemma kpub_write_shape (t : topic) (f : file) (data : list byte) (n : Z)
  (t' : topic) (taken : list byte) :
  kpub_write t f data = (Returns n, t', taken) ->
  0 <= n ->
  exists b,
    buf t = Some b /\
    taken = firstn (Z.to_nat n) data /\
    buf t' = Some (copy_in b (wp t) taken).
Proof.
  intros H Hn. write_accepted H Hn.
  injection H as Hres Ht' Htaken.
  exists b. rewrite Hres in *. subst t'.
  repeat split; [now symmetry | cbn [buf]; now rewrite Htaken].
Qed.

(** ** Well-formed states are preserved *)

Lemma length_copy_in (b : list byte) (at_ : Z) (data : list byte) :
  0 <= at_ ->
  at_ + Z.of_nat (length data) <= Z.of_nat (length b) ->
  length (copy_in b at_ data) = length b.
Proof.
  intros Hat Hfit. unfold copy_in.
  rewrite !length_app, length_firstn, length_skipn. lia.
Qed.

Lemma Forall_set_fd (P : option file -> Prop) (fds : list (option file))
  (fd : nat) (x : option file) :
  Forall P fds -> P x -> Forall P (set_fd fds fd x).
Proof.
  intros Hall Hx. revert fd.
  induction Hall as [| y rest Hy Hrest IH]; intros fd; cbn; [constructor |].
  destruct fd; constructor; auto.
Qed.

Lemma get_fd_ok (sz : Z) (fds : list (option file)) (fd : nat) (f : file) :
  Forall (file_ok sz) fds -> get_fd fds fd = Some f -> 0 <= f_pos f < sz.
Proof.
  unfold get_fd. intros Hall Hget.
  destruct (nth_error fds fd) as [[g |] |] eqn:Hnth; try discriminate.
  injection Hget as ->.
  rewrite Forall_forall in Hall.
  exact (Hall _ (nth_error_In _ _ Hnth)).
Qed.

Lemma get_fd_set_fd (fds : list (option file)) (fd fd' : nat)
  (x : option file) (f : file) :
  get_fd (set_fd fds fd x) fd' = Some f ->
  x = Some f \/ get_fd fds fd' = Some f.
Proof.
  unfold get_fd. revert fd fd'.
  induction fds as [| y rest IH]; intros [| k] [| k']; cbn; auto.
  - destruct x as [g |]; [| discriminate]. intros [= ->]. now left.
  - apply IH.
Qed.

(** The length a write accepts fits between [wp] and the end of the
    buffer, whatever the tail is. *)
Lemma write_clamp_fits (sz w off count : Z) :
  0 <= w < sz -> 0 <= off < sz -> sz < 2 ^ 32 -> 0 <= count ->
  let n := if w >=? off
           then Z.min count (u64 (sz - w))
           else Z.min count (u64 (off - w)) in
  0 <= n <= count /\ w + n <= sz.
Proof.
  intros Hw Hoff Hsz Hc.
  destruct (Z.geb_spec w off); cbn zeta; rewrite u64_small by lia; lia.
Qed.

(** The length a read returns fits between the cursor and the end of the
    buffer. *)
Lemma read_clamp_fits (sz w off count : Z) :
  0 <= w < sz -> 0 <= off < sz -> sz < 2 ^ 32 -> 0 <= count ->
  let n := if w >? off
           then Z.min count (u64 (w - off))
           else Z.min count (u64 (sz - off)) in
  0 <= n <= count /\ off + n <= sz.
Proof.
  intros Hw Hoff Hsz Hc.
  destruct (Z.gtb_spec w off); cbn zeta; rewrite u64_small by lia; lia.
Qed.

Ltac fields :=
  cbn [top fdt msg_size msg_count nreaders nwriters wp rp len rcount buf
       f_pos f_mode f_flags set_f_pos fst snd
       Z.eqb Z.opp ENOMEM EACCES EBADF].

Lemma step_well_formed (s : sys) (o : op) :
  well_formed s -> well_formed (fst (step s o)).
Proof.
  intros [Hsz Hwp Hbuf Hfiles Hnr Hnw Hrp Hlen Hrc].
  pose proof (size_range (top s)) as Hrange.
  destruct o as [mode flags | fd | fd count | fd data]; cbn [step].
  - (* open *)
    unfold kpub_open.
    destruct ((msg_size (top s) =? 0) || (msg_count (top s) =? 0));
      [cbn; now constructor |].
    assert (Hb : forall b,
               match buf (top s) with
               | Some b => Some b
               | None => Some (repeat x00 (Z.to_nat (size (top s))))
               end = Some b ->
               Z.of_nat (length b) = size (top s)).
    { intros b. destruct (buf (top s)) as [b0 |] eqn:Hb0.
      - intros [= <-]. now apply Hbuf.
      - intros [= <-]. rewrite repeat_length. lia. }
    destruct (match buf (top s) with
              | Some b => Some b
              | None => Some (repeat x00 (Z.to_nat (size (top s))))
              end) as [b |] eqn:Halloc; [| cbn; now constructor].
    specialize (Hb b eq_refl).
    destruct (reader_mode _); [| destruct (writer_mode _)]; fields.
    + constructor; unfold size, is_u32 in *; fields; auto;
        try apply u32_range; try lia.
      * now intros b' [= <-].
      * apply Forall_app. split; [exact Hfiles |].
        constructor; [exact Hwp | constructor].
    + constructor; unfold size, is_u32 in *; fields; auto;
        try apply u32_range; try lia.
      * now intros b' [= <-].
      * apply Forall_app. split; [exact Hfiles |].
        constructor; [exact Hwp | constructor].
    + constructor; unfold size in *; fields; auto.
      now intros b' [= <-].
  - (* close *)
    destruct (get_fd (fdt s) fd) as [f |]; [| cbn; now constructor].
    unfold kpub_release.
    destruct (reader_mode f); [| destruct (writer_mode f)]; fields.
    + constructor; unfold size, is_u32 in *; fields; auto;
        try apply u32_range.
      apply Forall_set_fd; [exact Hfiles | exact I].
    + constructor; unfold size, is_u32 in *; fields; auto;
        try apply u32_range.
      apply Forall_set_fd; [exact Hfiles | exact I].
    + constructor; cbn; auto.
      apply Forall_set_fd; [exact Hfiles | exact I].
  - (* read *)
    destruct (get_fd (fdt s) fd) as [f |] eqn:Hget; [| cbn; now constructor].
    destruct (Z.land (f_mode f) FMODE_READ =? 0); [cbn; now constructor |].
    pose proof (get_fd_ok _ _ _ _ Hfiles Hget) as Hpos.
    unfold kpub_read.
    destruct (f_pos f =? wp (top s)).
    { cbn. constructor; cbn; auto.
      apply Forall_set_fd; [exact Hfiles | exact Hpos]. }
    destruct (buf (top s)) as [b |] eqn:Hb.
    2:{ cbn. constructor; cbn; auto. rewrite Hb. discriminate.
        apply Forall_set_fd; [exact Hfiles | exact Hpos]. }
    destruct (read_clamp_fits (size (top s)) (wp (top s)) (f_pos f)
                (Z.of_N count)) as [Hn Hfit]; try lia.
    set (n := if wp (top s) >? f_pos f
              then Z.min (Z.of_N count) (u64 (wp (top s) - f_pos f))
              else Z.min (Z.of_N count) (u64 (size (top s) - f_pos f))) in *.
    clearbody n.
    pose proof (Hbuf b eq_refl) as Hlenb.
    rewrite (in_buffer_fits b (f_pos f) n) by lia.
    cbn [negb].
    assert (Hcur : 0 <= s64 (wrap_at (size (top s)) (u64 (f_pos f + n)))
                   < size (top s)).
    { rewrite u64_small by lia.
      pose proof (wrap_at_below (size (top s)) (f_pos f + n)).
      rewrite s64_small; lia. }
    destruct (u32 (rcount (top s) - 1) =? 0); fields.
    + constructor; unfold size, is_u32 in *; fields; auto;
        try apply u32_range.
      * apply Forall_set_fd; [exact Hfiles | exact Hcur].
      * unfold wrap_at. pose proof (u32_range (rp (top s) + n)).
        destruct (_ =? _); lia.
    + constructor; unfold size, is_u32 in *; fields; auto;
        try apply u32_range.
      apply Forall_set_fd; [exact Hfiles | exact Hcur].
  - (* write *)
    destruct (get_fd (fdt s) fd) as [f |] eqn:Hget; [| cbn; now constructor].
    destruct (Z.land (f_mode f) FMODE_WRITE =? 0); [cbn; now constructor |].
    pose proof (get_fd_ok _ _ _ _ Hfiles Hget) as Hpos.
    unfold kpub_write.
    destruct (msg_size (top s) =? 0); [cbn; now constructor |].
    destruct (negb _); [cbn; now constructor |].
    destruct (_ >? _); [cbn; now constructor |].
    destruct (len (top s) =? size (top s)); [cbn; now constructor |].
    destruct (buf (top s)) as [b |] eqn:Hb;
      [| cbn; constructor; cbn; auto; rewrite Hb; discriminate].
    destruct (write_clamp_fits (size (top s)) (wp (top s)) (f_pos f)
                (Z.of_nat (length data))) as [Hn Hfit]; try lia.
    set (n := if wp (top s) >=? f_pos f
              then Z.min (Z.of_nat (length data)) (u64 (size (top s) - wp (top s)))
              else Z.min (Z.of_nat (length data)) (u64 (f_pos f - wp (top s)))) in *.
    clearbody n.
    pose proof (Hbuf b eq_refl) as Hlenb.
    rewrite (in_buffer_fits b (wp (top s)) n) by lia.
    cbn [negb].
    fields. constructor; unfold size, is_u32 in *; fields; auto;
      try apply u32_range.
    + rewrite (u32_small (wp (top s) + n)) by lia. apply wrap_at_below; lia.
    + intros b' [= <-]. specialize (Hbuf b eq_refl).
      rewrite length_copy_in; [exact Hbuf | lia |].
      rewrite length_firstn. lia.
Qed.

Lemma reachable_well_formed (s0 s : sys) :
  well_formed s0 -> reachable s0 s -> well_formed s.
Proof.
  intros H0. induction 1 as [| s o _ IH]; [exact H0 |].
  now apply step_well_formed.
Qed.

(** ** No operation on a well-formed state faults *)

Lemma step_buffered (s : sys) (o : op) :
  buffered s -> buffered (fst (step s o)).
Proof.
  unfold buffered. intros Hb.
  destruct o as [mode flags | fd | fd count | fd data]; cbn [step].
  - (* open *)
    unfold kpub_open.
    destruct ((msg_size (top s) =? 0) || (msg_count (top s) =? 0));
      [cbn; exact Hb |].
    destruct (buf (top s)) as [b |] eqn:Hb0.
    + destruct (reader_mode _); [| destruct (writer_mode _)]; fields;
        intros; discriminate.
    + destruct (reader_mode _); [| destruct (writer_mode _)]; fields;
        intros; discriminate.
  - (* close *)
    destruct (get_fd (fdt s) fd) as [f |] eqn:Hget; [| cbn; exact Hb].
    assert (Hsome : buf (top s) <> None) by (eapply Hb; exact Hget).
    unfold kpub_release.
    destruct (reader_mode f); [| destruct (writer_mode f)]; fields;
      intros; exact Hsome.
  - (* read *)
    destruct (get_fd (fdt s) fd) as [f |] eqn:Hget; [| cbn; exact Hb].
    destruct (Z.land (f_mode f) FMODE_READ =? 0); [cbn; exact Hb |].
    assert (Hsome : buf (top s) <> None) by (eapply Hb; exact Hget).
    destruct (kpub_read (top s) f (Z.of_N count)) as [[[r t'] f'] out] eqn:Hr.
    fields. intros _ _ _.
    unfold kpub_read in Hr.
    destruct (f_pos f =? wp (top s)); [now injection Hr as _ <- _ _ |].
    destruct (buf (top s)) as [b |] eqn:Hb0; [| contradiction].
    destruct (negb (in_buffer _ _ _)); [injection Hr as _ <- _ _; congruence |].
    injection Hr as _ <- _ _.
    destruct (u32 (rcount (top s) - 1) =? 0); cbn [buf]; congruence.
  - (* write *)
    destruct (get_fd (fdt s) fd) as [f |] eqn:Hget; [| cbn; exact Hb].
    destruct (Z.land (f_mode f) FMODE_WRITE =? 0); [cbn; exact Hb |].
    assert (Hsome : buf (top s) <> None) by (eapply Hb; exact Hget).
    destruct (kpub_write (top s) f data) as [[r t'] taken] eqn:Hw.
    fields. intros _ _ _.
    unfold kpub_write in Hw.
    destruct (msg_size (top s) =? 0); [now injection Hw as _ <- _ |].
    destruct (negb _); [now injection Hw as _ <- _ |].
    destruct (_ >? _); [now injection Hw as _ <- _ |].
    destruct (len (top s) =? size (top s)); [now injection Hw as _ <- _ |].
    destruct (buf (top s)) as [b |] eqn:Hb0; [| contradiction].
    destruct (negb (in_buffer _ _ _)); [injection Hw as _ <- _; congruence |].
    injection Hw as _ <- _. cbn [buf]. discriminate.
Qed.

(** On a well-formed state whose open files have their buffer, no
    operation divides by a zero [msg_size], copies through a NULL [buf] or
    copies outside the buffer. *)
Lemma step_never_faults (s : sys) (o : op) :
  well_formed s -> buffered s -> ev_out (snd (step s o)) <> Oops.
Proof.
  intros [Hsz Hwp Hbuf Hfiles _ _ _ _ _] Hopen.
  pose proof (size_range (top s)) as Hrange.
  destruct o as [mode flags | fd | fd count | fd data]; cbn [step].
  - destruct (kpub_open true (top s) (mkFile mode flags 0)) as [[r t'] f'].
    destruct (r =? 0); cbn; discriminate.
  - destruct (get_fd (fdt s) fd) as [f |]; [| cbn; discriminate].
    destruct (kpub_release (top s) f) as [r t']. cbn. discriminate.
  - destruct (get_fd (fdt s) fd) as [f |] eqn:Hget; [| cbn; discriminate].
    destruct (Z.land (f_mode f) FMODE_READ =? 0); [cbn; discriminate |].
    pose proof (get_fd_ok _ _ _ _ Hfiles Hget) as Hpos.
    pose proof (Hopen _ _ Hget) as Hsome.
    destruct (buf (top s)) as [b |] eqn:Hb0; [| contradiction].
    pose proof (Hbuf b eq_refl) as Hlenb.
    unfold kpub_read. rewrite Hb0.
    destruct (f_pos f =? wp (top s));
      [destruct (nonblock f); cbn; discriminate |].
    destruct (read_clamp_fits (size (top s)) (wp (top s)) (f_pos f)
                (Z.of_N count)) as [Hn Hfit]; try lia.
    cbv zeta in Hn, Hfit |- *.
    rewrite in_buffer_fits by lia.
    cbn. discriminate.
  - destruct (get_fd (fdt s) fd) as [f |] eqn:Hget; [| cbn; discriminate].
    destruct (Z.land (f_mode f) FMODE_WRITE =? 0); [cbn; discriminate |].
    pose proof (get_fd_ok _ _ _ _ Hfiles Hget) as Hpos.
    pose proof (Hopen _ _ Hget) as Hsome.
    destruct (buf (top s)) as [b |] eqn:Hb0; [| contradiction].
    pose proof (Hbuf b eq_refl) as Hlenb.
    unfold kpub_write. rewrite Hb0.
    destruct (Z.eqb_spec (msg_size (top s)) 0) as [Hz | _].
    { unfold size, u32 in Hsz. rewrite Hz, Z.mul_0_l, Z.mod_0_l in Hsz; lia. }
    destruct (negb _); [cbn; discriminate |].
    destruct (_ >? _); [cbn; discriminate |].
    destruct (len (top s) =? size (top s));
      [destruct (nonblock f); cbn; discriminate |].
    destruct (write_clamp_fits (size (top s)) (wp (top s)) (f_pos f)
                (Z.of_nat (length data))) as [Hn Hfit]; try lia.
    cbv zeta in Hn, Hfit |- *.
    rewrite in_buffer_fits by lia.
    cbn. discriminate.
Qed.

Lemma reachable_buffered (s0 s : sys) :
  buffered s0 -> reachable s0 s -> buffered s.
Proof.
  intros H0. induction 1 as [| s o _ IH]; [exact H0 |].
  now apply step_buffered.
Qed.

Lemma boot_well_formed : well_formed boot.
Proof.
  constructor; unfold is_u32; cbn [boot top fdt fresh_topic wp rp len rcount
                                   nreaders nwriters buf].
  - reflexivity.
  - change (size fresh_topic) with 16. lia.
  - discriminate.
  - constructor.
  - lia.
  - lia.
  - lia.
  - lia.
  - lia.
Qed.

(** ** Runs

    Running a list of operations stays within the reachable states, and
    the reachable states of a well-formed topic are well-formed. *)

Lemma reachable_run (s0 s : sys) (ops : list op) :
  reachable s0 s -> reachable s0 (fst (run s ops)).
Proof.
  revert s. induction ops as [| o rest IH]; intros s Hs; [exact Hs |].
  cbn [run]. destruct (step s o) as [s1 e] eqn:Hstep.
  specialize (IH s1). destruct (run s1 rest) as [s2 log].
  apply IH. change s1 with (fst (s1, e)). rewrite <- Hstep.
  now apply reachable_step.
Qed.

Lemma reachable_after (ops : list op) : reachable boot (after ops).
Proof. apply reachable_run. apply reachable_start. Qed.

(** ** C1: bytes read against bytes written *)

(** What [copy_in] puts at [w] is what [firstn] and [skipn] find there. *)
Lemma firstn_skipn_copy_in (b : list byte) (w : Z) (data : list byte) :
  0 <= w ->
  w + Z.of_nat (length data) <= Z.of_nat (length b) ->
  firstn (length data) (skipn (Z.to_nat w) (copy_in b w data)) = data.
Proof.
  intros Hw Hfit. unfold copy_in.
  assert (Hlen : length (firstn (Z.to_nat w) b) = Z.to_nat w)
    by (rewrite length_firstn; lia).
  rewrite skipn_app, Hlen, Nat.sub_diag, skipn_all2 by lia.
  cbn [skipn app].
  rewrite firstn_app, Nat.sub_diag, firstn_all. cbn [firstn].
  apply app_nil_r.
Qed.

(** X1.  In lock step the channel delivers.  The reader has caught up
    ([*off = wp]); a write of [n] bytes is accepted, with [n] positive and
    less than the capacity; the reader then asks for at least [n] bytes.
    The read returns exactly the bytes the write took, and leaves the
    reader caught up again. *)
Lemma lockstep_delivery (t : topic) (fw fr : file) (data : list byte)
  (n : Z) (t1 : topic) (taken : list byte) (count : Z) :
  0 <= wp t < size t ->
  (forall b, buf t = Some b -> Z.of_nat (length b) = size t) ->
  0 <= f_pos fw < size t ->
  f_pos fr = wp t ->
  kpub_write t fw data = (Returns n, t1, taken) ->
  0 < n < size t ->
  n <= count ->
  exists t2 fr',
    kpub_read t1 fr count = (Returns n, t2, fr', taken) /\
    f_pos fr' = wp t1 /\ wp t2 = wp t1.
Proof.
  intros Hwp Hbuf Hfw Hfr Hw Hn Hcount.
  pose proof (size_range t) as Hrange.
  assert (Hn0 : 0 <= n) by lia.
  destruct (kpub_write_shape _ _ _ _ _ _ Hw Hn0) as (b & Hb & Htaken & Hb1).
  destruct (kpub_write_accepts _ _ _ _ _ _ Hw Hn0)
    as (_ & _ & _ & Hwp1 & _ & _ & _ & Hms & Hmc).
  pose proof (kpub_write_clamp _ _ _ _ _ _ Hw Hn0) as Hclamp.
  destruct (write_clamp_fits (size t) (wp t) (f_pos fw)
              (Z.of_nat (length data))) as [Hle Hfit]; try lia.
  rewrite <- Hclamp in Hle, Hfit.
  assert (Hsize1 : size t1 = size t) by (unfold size; now rewrite Hms, Hmc).
  assert (Hlt : length taken = Z.to_nat n)
    by (rewrite Htaken, length_firstn; lia).
  rewrite (u32_small (wp t + n)) in Hwp1 by lia.
  assert (Hout : firstn (Z.to_nat n)
                   (skipn (Z.to_nat (wp t)) (copy_in b (wp t) taken)) = taken).
  { rewrite <- Hlt. apply firstn_skipn_copy_in; [lia |].
    rewrite (Hbuf b Hb). lia. }
  assert (Hin : in_buffer (copy_in b (wp t) taken) (wp t) n = true).
  { pose proof (Hbuf b Hb) as Hlenb.
    apply in_buffer_fits; [lia |].
    rewrite length_copy_in; lia. }
  assert (Hcase : wp t + n = size t /\ wp t1 = 0 \/
                  wp t + n < size t /\ wp t1 = wp t + n).
  { rewrite Hwp1. unfold wrap_at.
    destruct (Z.eqb_spec (wp t + n) (size t)); lia. }
  unfold kpub_read. cbv zeta. rewrite Hsize1, Hb1, Hfr.
  destruct Hcase as [[Hend ->] | [Hmid ->]].
  - (* the write reached the end of the buffer: wp is back at 0 *)
    destruct (Z.eqb_spec (wp t) 0) as [Hz | _]; [lia |].
    destruct (Z.gtb_spec 0 (wp t)) as [Hgt | _]; [lia |].
    rewrite (u64_small (size t - wp t)) by lia.
    replace (Z.min count (size t - wp t)) with n by lia.
    rewrite Hin, Hout. cbn [negb].
    do 2 eexists. split; [reflexivity |].
    split.
    + cbn [f_pos set_f_pos]. rewrite u64_small by lia.
      unfold wrap_at.
      destruct (Z.eqb_spec (wp t + n) (size t)); [reflexivity | lia].
    + destruct (u32 (rcount t1 - 1) =? 0); reflexivity.
  - destruct (Z.eqb_spec (wp t) (wp t + n)) as [Hz | _]; [lia |].
    destruct (Z.gtb_spec (wp t + n) (wp t)) as [_ | Hle']; [| lia].
    rewrite (u64_small (wp t + n - wp t)) by lia.
    replace (Z.min count (wp t + n - wp t)) with n by lia.
    rewrite Hin, Hout. cbn [negb].
    do 2 eexists. split; [reflexivity |].
    split.
    + cbn [f_pos set_f_pos]. rewrite u64_small by lia.
      unfold wrap_at.
      destruct (Z.eqb_spec (wp t + n) (size t)); [lia |].
      apply s64_small. lia.
    + destruct (u32 (rcount t1 - 1) =? 0); reflexivity.
Qed.

(** The first write of eight bytes, then a read of eight bytes. *)
Lemma lockstep_delivery_witness :
  exists t2 fr',
    kpub_read (top (after published)) (file_of (after opened) 1) 8 =
      (Returns 8, t2, fr', msgA) /\
    f_pos fr' = wp (top (after published)) /\
    wp t2 = wp (top (after published)).
Proof.
  apply (lockstep_delivery
           (top (after opened)) (file_of (after opened) 0)
           (file_of (after opened) 1) msgA 8 (top (after published)) msgA 8).
  - vm_compute. split; [discriminate | reflexivity].
  - intros b Hb. vm_compute in Hb. injection Hb as <-. reflexivity.
  - vm_compute. split; [discriminate | reflexivity].
  - reflexivity.
  - vm_compute. reflexivity.
  - vm_compute. split; reflexivity.
  - lia.
Defined.

(** C1.  One writer and one reader on a topic of 16 bytes.  The writer
    publishes 8 bytes, the reader reads them, the writer publishes 8 more
    and then 16 more, all accepted in full; the reader then reads.  The
    reads do not return the bytes the writes accepted, in order: the second
    message is never returned, the reader gets the second half of the third
    message in its place, and what the reader has received is not even a
    prefix of what was published. *)
Theorem overrun_loses_published_bytes :
  let log := log_of (overrun ++ [OpRead 1 16]) in
  map ev_out log =
    [Returns 0; Returns 1; Returns 8; Returns 8; Returns 8; Returns 16;
     Returns 8] /\
  bytes_written log = msgA ++ msgB ++ msgC /\
  bytes_read log = msgA ++ skipn 8 msgC /\
  is_prefix (bytes_read log) (bytes_written log) = false.
Proof. vm_compute. repeat split. Qed.

(** ** C2: the accounting of a completed read *)

(** C2.  The state after [short_reads] is reached from the configured topic
    by two opens, three writes and three reads; the tail [rp] is at 12 in a
    buffer of 16 bytes.  The reader's next read returns 12 bytes and brings
    the gate to zero, and the tail becomes 24, not (12 + 12) mod 16 = 8:
    [if (rp == size) rp = 0] resets a sum that is exactly the capacity and
    lets one that passes it stand, where [wp] and [*off], reset by the same
    test, never pass it. *)
Theorem gated_read_tail_past_capacity :
  let s := after short_reads in
  let s' := after (short_reads ++ [OpRead 1 12]) in
  reachable boot s /\
  kpub_read (top s) (file_of s 1) 12 =
    (Returns 12, top s', file_of s' 1, msgD) /\
  size (top s) = 16 /\ rp (top s) = 12 /\
  rcount (top s') = 0 /\ rp (top s') = 24 /\
  rp (top s') <> (rp (top s) + 12) mod size (top s).
Proof.
  split; [apply reachable_after |].
  vm_compute. repeat split; discriminate.
Qed.

(** What the gate does in every completed read.  A read that completes
    with [n] bytes decrements [rcount] once, in 32-bit arithmetic.  When
    that brings [rcount] to zero, [rp] becomes [rp + n], set back to 0 when
    the sum is exactly the capacity (this is the advance modulo the capacity
    whenever [rp + n] does not exceed it), and [len] becomes [len - n] in
    32-bit arithmetic (a decrease by [n] whenever [n <= len]).  Otherwise
    the read leaves [rp] and [len] alone.  A write leaves [len] alone or
    adds the accepted length to it. *)
Lemma read_gate_accounting (t : topic) (f : file) (count n : Z)
  (t' : topic) (f' : file) (out : list byte) :
  kpub_read t f count = (Returns n, t', f', out) ->
  0 <= n ->
  rcount t' = u32 (rcount t - 1) /\
  (rcount t' = 0 ->
   rp t' = wrap_at (size t) (u32 (rp t + n)) /\ len t' = u32 (len t - n)) /\
  (rcount t' = 0 -> 0 <= rp t -> rp t + n <= size t -> 0 < size t ->
   rp t' = (rp t + n) mod size t) /\
  (rcount t' = 0 -> n <= len t < 2 ^ 32 -> len t' = len t - n) /\
  (rcount t' <> 0 -> rp t' = rp t /\ len t' = len t) /\
  (forall fw data r t2 taken,
     kpub_write t fw data = (r, t2, taken) ->
     len t2 = len t \/
     exists m, r = Returns m /\ 0 <= m /\ len t2 = u32 (len t + m)).
Proof.
  intros Hr Hn.
  destruct (kpub_read_completes _ _ _ _ _ _ _ Hr Hn) as (_ & Hrc & Hgate & _).
  split; [exact Hrc |].
  split; [| split; [| split; [| split]]].
  - intros Hz. rewrite Hz in Hgate. exact Hgate.
  - intros Hz Hrp Hsum Hsz. rewrite Hz in Hgate. destruct Hgate as [-> _].
    assert (size t < 2 ^ 32) by apply u32_range.
    rewrite u32_small by lia. apply wrap_at_mod; lia.
  - intros Hz Hlen. rewrite Hz in Hgate. destruct Hgate as [_ ->].
    apply u32_small. lia.
  - intros Hnz. apply Z.eqb_neq in Hnz. rewrite Hnz in Hgate. exact Hgate.
  - intros fw data r t2 taken Hw.
    destruct r as [m | |].
    + destruct (Z_lt_le_dec m 0) as [Hneg | Hpos].
      * left. f_equal. eapply kpub_write_refused; [exact Hw |].
        intros m' Hm'. injection Hm' as <-. exact Hneg.
      * right. exists m.
        destruct (kpub_write_accepts _ _ _ _ _ _ Hw Hpos) as (_ & _ & Hl & _).
        auto.
    + left. f_equal. eapply kpub_write_refused; [exact Hw |]. discriminate.
    + left. f_equal. eapply kpub_write_refused; [exact Hw |]. discriminate.
Qed.

(** The read of eight bytes that follows [published]. *)
Lemma read_gate_accounting_witness :
  rcount (top (after (published ++ [OpRead 1 8]))) =
  u32 (rcount (top (after published)) - 1).
Proof.
  refine (proj1 (read_gate_accounting
                   (top (after published)) (file_of (after published) 1) 8 8
                   (top (after (published ++ [OpRead 1 8])))
                   (file_of (after (published ++ [OpRead 1 8])) 1)
                   msgA _ _)).
  - vm_compute. reflexivity.
  - lia.
Defined.

(** ** C3: the readiness mask *)

(** What [kpub_poll] reports depends on [len] alone, for every topic and
    every file: readable when [len > 0], writable when [len = size]. *)
Lemma kpub_poll_mask (t : topic) (f : file) :
  reports_readable (kpub_poll t f) = (len t >? 0) /\
  reports_writable (kpub_poll t f) = (len t =? size t).
Proof.
  unfold kpub_poll.
  destruct (len t >? 0); destruct (len t =? size t); split; reflexivity.
Qed.

(** C3.  On the topic just opened by a writer and a reader nothing is
    pending ([len = 0 < 16]), and [kpub_poll] returns the empty mask: the
    writer is not reported writable although [len < size] and a write would
    be accepted.  Once the writer has filled the buffer ([len = size] and
    [wp] back on the reader's cursor), [kpub_poll] reports the reader
    readable and the writer writable, while a read and a write both go to
    sleep. *)
Theorem poll_contradicts_read_and_write :
  (let s := after opened in
   kpub_poll (top s) (file_of s 0) = 0 /\
   reports_writable (kpub_poll (top s) (file_of s 0)) = false /\
   spec_writable (top s) = true /\
   fst (fst (kpub_write (top s) (file_of s 0) msgA)) = Returns 8) /\
  (let s := after filled in
   reports_readable (kpub_poll (top s) (file_of s 1)) = true /\
   spec_readable (top s) (file_of s 1) = false /\
   fst (fst (fst (kpub_read (top s) (file_of s 1) 4))) = Sleeps /\
   reports_writable (kpub_poll (top s) (file_of s 0)) = true /\
   spec_writable (top s) = false /\
   fst (fst (kpub_write (top s) (file_of s 0) msgA)) = Sleeps).
Proof. vm_compute. repeat split. Qed.

(** ** C4: the clamp of a write *)

(** As long as the tail is where the writing file was opened ([rp = *off]),
    the length a write accepts is the one the specification gives. *)
Lemma write_clamp_agrees (t : topic) (f : file) (data : list byte) (n : Z)
  (t' : topic) (taken : list byte) :
  0 <= wp t < size t -> 0 <= f_pos f < size t ->
  rp t = f_pos f ->
  kpub_write t f data = (Returns n, t', taken) ->
  0 <= n ->
  n = spec_accepted t (Z.of_nat (length data)).
Proof.
  intros Hwp Hf Hrp Hw Hn.
  pose proof (size_range t) as Hrange.
  rewrite (kpub_write_clamp _ _ _ _ _ _ Hw Hn).
  unfold spec_accepted. rewrite Hrp.
  destruct (Z.geb_spec (wp t) (f_pos f)); rewrite u64_small by lia; reflexivity.
Qed.

(** C4.  After [lapped], [wp = 0] is below [rp = 8] and the bytes at
    offsets 8 to 15 have not been read by the reader, whose cursor is 8.
    The clamp of the specification accepts 8 of the 16 bytes of the next
    write; [kpub_write] accepts all 16, since [wp] is not below the writer's
    own cursor 0, and copies them over offsets 0 to 15, past [rp]. *)
Theorem write_clamp_ignores_tail :
  let s := after lapped in
  let '(r, t', taken) := kpub_write (top s) (file_of s 0) msgC in
  wp (top s) = 0 /\ rp (top s) = 8 /\ len (top s) = 8 /\ size (top s) = 16 /\
  f_pos (file_of s 0) = 0 /\ f_pos (file_of s 1) = 8 /\
  buf (top s) = Some (msgA ++ msgB) /\
  spec_accepted (top s) (Z.of_nat (length msgC)) = 8 /\
  r = Returns 16 /\ taken = msgC /\ buf t' = Some msgC.
Proof. vm_compute. repeat split. Qed.

(** ** C5: the bound on [len] *)

(** X2.  What does hold in every state that [open], [close], [read] and
    [write] reach from a topic that was configured and never opened (every
    position and count at zero, no buffer, no file open), the reads and
    writes going by the position of their file and no store of an
    attribute coming in between: [len] is a [uint32_t]; [wp] and the cursor
    of every open file stay inside the buffer; the buffer, once allocated,
    has the bytes of the capacity; and no operation divides by zero,
    copies through a NULL buffer or copies outside the buffer. *)
Lemma reachable_bounds (sz cnt : Z) (s : sys) :
  0 < u32 (sz * cnt) ->
  reachable (mkSys (mkTopic sz cnt 0 0 0 0 0 0 None) []) s ->
  0 <= len (top s) < 2 ^ 32 /\
  0 <= wp (top s) < size (top s) /\
  (forall fd f, get_fd (fdt s) fd = Some f -> 0 <= f_pos f < size (top s)) /\
  (forall b, buf (top s) = Some b -> Z.of_nat (length b) = size (top s)) /\
  (forall o, ev_out (snd (step s o)) <> Oops).
Proof.
  intros Hcfg Hreach.
  assert (Hwf : well_formed s).
  { eapply reachable_well_formed; [| exact Hreach].
    constructor; unfold is_u32, size;
      cbn [top fdt msg_size msg_count nreaders nwriters wp rp len rcount buf];
      try lia.
    - discriminate.
    - constructor. }
  assert (Hopen : buffered s).
  { eapply reachable_buffered; [| exact Hreach].
    intros [| fd] f; discriminate. }
  pose proof Hwf as [_ Hwp Hbuf Hfiles _ _ _ Hlen _].
  split; [exact Hlen |]. split; [exact Hwp |].
  split; [intros fd f Hget; eapply get_fd_ok; eassumption |].
  split; [exact Hbuf |].
  intros o. now apply step_never_faults.
Qed.

(** The state after [overrun], and one more write of sixteen bytes. *)
Lemma reachable_bounds_witness :
  0 <= wp (top (after overrun)) < size (top (after overrun)) /\
  ev_out (snd (step (after overrun) (OpWrite 0 msgC))) <> Oops.
Proof.
  destruct (reachable_bounds 4 4 (after overrun))
    as (_ & Hwp & _ & _ & Hsafe).
  - reflexivity.
  - exact (reachable_after overrun).
  - split; [exact Hwp | apply Hsafe].
Defined.

(** C5.  The state after [overrun] is reached from the configured topic by
    two opens, three writes and one read, and in it [len = 24] exceeds the
    capacity of 16 bytes. *)
Theorem pending_len_exceeds_capacity :
  reachable boot (after overrun) /\
  len (top (after overrun)) = 24 /\
  size (top (after overrun)) = 16 /\
  size (top (after overrun)) < len (top (after overrun)).
Proof.
  split; [apply reachable_after |].
  vm_compute. repeat split.
Qed.

(** ** C6: writes of a bad length *)

(** C6.  A write whose length is not a multiple of [msg_size], or exceeds
    the capacity, returns [-EINVAL] and leaves the topic, buffer included,
    as it was; the file is not touched either. *)
Theorem write_rejects_bad_length (t : topic) (f : file) (data : list byte) :
  msg_size t <> 0 ->
  Z.of_nat (length data) mod msg_size t <> 0 \/
  Z.of_nat (length data) > size t ->
  kpub_write t f data = (Returns (- EINVAL), t, []).
Proof.
  intros Hm Hbad. unfold kpub_write.
  destruct (Z.eqb_spec (msg_size t) 0) as [Hz | _]; [contradiction |].
  destruct (Z.eqb_spec (Z.of_nat (length data) mod msg_size t) 0)
    as [Hmul | Hmul]; cbn [negb]; [| reflexivity].
  destruct Hbad as [Hbad | Hbad]; [contradiction |].
  destruct (Z.gtb_spec (Z.of_nat (length data)) (size t)); [reflexivity | lia].
Qed.

(** A write of three bytes on the topic of four-byte messages. *)
Lemma write_rejects_bad_length_witness :
  kpub_write (top (after published)) (file_of (after published) 0)
             [x01; x02; x03] =
  (Returns (- EINVAL), top (after published), []).
Proof.
  apply (write_rejects_bad_length
           (top (after published)) (file_of (after published) 0)
           [x01; x02; x03]).
  - vm_compute. lia.
  - left. vm_compute. lia.
Defined.

(** ** C7 and C8: the attribute stores *)

(** C7, as stated, fails on the error: with a reader and a writer open, the
    store of [msg_size] returns [-EINVAL], which is not [-EBUSY]; so does
    the store of [msg_count]. *)
Lemma open_handles_store_returns_einval :
  let t := top (after opened) in
  nreaders t = 1 /\ nwriters t = 1 /\
  msg_size_store 4096 t 8 4 = (- EINVAL, t) /\
  msg_count_store t 8 4 = (- EINVAL, t) /\
  fst (msg_size_store 4096 t 8 4) <> - EBUSY /\
  fst (msg_count_store t 8 4) <> - EBUSY.
Proof. vm_compute. repeat split; discriminate. Qed.

(** C8, as stated, fails on the value zero: with no file open, storing 0
    into [msg_size] or [msg_count] succeeds (the store returns the 4 bytes
    it consumed) and leaves the attribute at zero. *)
Lemma store_accepts_zero :
  nreaders fresh_topic = 0 /\ nwriters fresh_topic = 0 /\
  fst (msg_size_store 4096 fresh_topic 0 4) = 4 /\
  msg_size (snd (msg_size_store 4096 fresh_topic 0 4)) = 0 /\
  fst (msg_count_store fresh_topic 0 4) = 4 /\
  msg_count (snd (msg_count_store fresh_topic 0 4)) = 0 /\
  fst (msg_size_store 4096 fresh_topic 0 4) <> - EINVAL.
Proof. vm_compute. repeat split; discriminate. Qed.

(** An open on a topic that lacks a message size or a message count, or
    whose buffer cannot be allocated, returns [-ENOMEM] and changes
    neither the topic nor the file. *)
Lemma open_unready_topic (ok : bool) (t : topic) (f : file) :
  msg_size t = 0 \/ msg_count t = 0 \/ (buf t = None /\ ok = false) ->
  kpub_open ok t f = (- ENOMEM, t, f).
Proof.
  intros Hcase. unfold kpub_open.
  destruct (Z.eqb_spec (msg_size t) 0) as [Hs | Hs]; [reflexivity |].
  destruct (Z.eqb_spec (msg_count t) 0) as [Hc | Hc]; [reflexivity |].
  cbn [orb].
  destruct Hcase as [Hz | [Hz | [Hb ->]]]; try contradiction.
  now rewrite Hb.
Qed.

Section AttributeStores.

Variable PAGE_SIZE : Z.

(** C7, amended.  While a file is open on the topic, the stores of
    [msg_size] and [msg_count] return [-EINVAL] (the module has no other
    error for it) and leave the topic, both attributes included, as it was.
    A store that is given more than four bytes, the size of the attribute,
    does the same, whatever the value and whether or not a file is open.
    With no file open, storing the same value twice, within the maximum and
    in at most four bytes, succeeds both times: each call returns the number
    of bytes it was given and the second one changes nothing. *)
Theorem store_with_open_handles (t : topic) (v count : Z) :
  (nreaders t <> 0 \/ nwriters t <> 0 ->
   msg_size_store PAGE_SIZE t v count = (- EINVAL, t) /\
   msg_count_store t v count = (- EINVAL, t)) /\
  (4 < count ->
   msg_size_store PAGE_SIZE t v count = (- EINVAL, t) /\
   msg_count_store t v count = (- EINVAL, t)) /\
  (nreaders t = 0 -> nwriters t = 0 -> 0 <= count <= 4 ->
   u32 v <= PAGE_SIZE ->
   let t1 := snd (msg_size_store PAGE_SIZE t v count) in
   fst (msg_size_store PAGE_SIZE t v count) = count /\
   msg_size t1 = u32 v /\ msg_count t1 = msg_count t /\
   msg_size_store PAGE_SIZE t1 v count = (count, t1)) /\
  (nreaders t = 0 -> nwriters t = 0 -> 0 <= count <= 4 ->
   u32 v <= MAX_MSG_COUNT ->
   let t1 := snd (msg_count_store t v count) in
   fst (msg_count_store t v count) = count /\
   msg_count t1 = u32 v /\ msg_size t1 = msg_size t /\
   msg_count_store t1 v count = (count, t1)).
Proof.
  split; [| split; [| split]].
  - intros Hopen. unfold msg_size_store, msg_count_store.
    destruct (count >? 4); [split; reflexivity |].
    destruct (Z.eqb_spec (nreaders t) 0) as [Hr | Hr];
      destruct (Z.eqb_spec (nwriters t) 0) as [Hw | Hw];
      cbn [negb orb]; try (split; reflexivity).
    destruct Hopen; contradiction.
  - intros Hlong. unfold msg_size_store, msg_count_store.
    destruct (Z.gtb_spec count 4) as [_ | Hle]; [split; reflexivity | lia].
  - intros Hr Hw Hc Hv. unfold msg_size_store, MAX_MSG_SIZE.
    rewrite Hr, Hw. cbn [Z.eqb negb orb].
    destruct (Z.gtb_spec count 4) as [Hgt | _]; [lia |].
    destruct (Z.gtb_spec (u32 v) PAGE_SIZE) as [Hgt | _]; [lia |].
    cbn [fst snd msg_size msg_count nreaders nwriters Z.eqb negb orb].
    destruct (Z.gtb_spec (u32 v) PAGE_SIZE) as [Hgt | _]; [lia |].
    repeat split.
  - intros Hr Hw Hc Hv. unfold msg_count_store.
    rewrite Hr, Hw. cbn [Z.eqb negb orb].
    destruct (Z.gtb_spec count 4) as [Hgt | _]; [lia |].
    destruct (Z.gtb_spec (u32 v) MAX_MSG_COUNT) as [Hgt | _]; [lia |].
    cbn [fst snd msg_size msg_count nreaders nwriters Z.eqb negb orb].
    destruct (Z.gtb_spec (u32 v) MAX_MSG_COUNT) as [Hgt | _]; [lia |].
    repeat split.
Qed.

(** C8, amended.  With no file open, the store of a value above the maximum
    ([PAGE_SIZE] for [msg_size], 64 for [msg_count]) that is given at most
    four bytes returns [-EINVAL] and leaves the attribute at zero, not at
    the value it had; a store that is given more than four bytes returns
    [-EINVAL] whatever the value and leaves the topic as it was.  The store
    of zero is not an error: it returns the number of bytes it was given
    and leaves the attribute at zero.  With an attribute at zero, by either
    way, every open of the topic returns [-ENOMEM] and changes nothing. *)
Theorem store_above_maximum (t : topic) (v count : Z) :
  nreaders t = 0 -> nwriters t = 0 ->
  (4 < count ->
   msg_size_store PAGE_SIZE t v count = (- EINVAL, t) /\
   msg_count_store t v count = (- EINVAL, t)) /\
  (count <= 4 -> u32 v > PAGE_SIZE ->
   let t1 := snd (msg_size_store PAGE_SIZE t v count) in
   fst (msg_size_store PAGE_SIZE t v count) = - EINVAL /\
   msg_size t1 = 0 /\ msg_count t1 = msg_count t /\
   forall ok f, kpub_open ok t1 f = (- ENOMEM, t1, f)) /\
  (count <= 4 -> u32 v > MAX_MSG_COUNT ->
   let t1 := snd (msg_count_store t v count) in
   fst (msg_count_store t v count) = - EINVAL /\
   msg_count t1 = 0 /\ msg_size t1 = msg_size t /\
   forall ok f, kpub_open ok t1 f = (- ENOMEM, t1, f)) /\
  (0 <= count <= 4 -> u32 v = 0 -> 0 <= PAGE_SIZE ->
   let t1 := snd (msg_size_store PAGE_SIZE t v count) in
   let t2 := snd (msg_count_store t v count) in
   fst (msg_size_store PAGE_SIZE t v count) = count /\
   msg_size t1 = 0 /\
   fst (msg_count_store t v count) = count /\
   msg_count t2 = 0 /\
   forall ok f,
     kpub_open ok t1 f = (- ENOMEM, t1, f) /\
     kpub_open ok t2 f = (- ENOMEM, t2, f)).
Proof.
  intros Hr Hw.
  split; [| split; [| split]].
  - intros Hlong. unfold msg_size_store, msg_count_store.
    destruct (Z.gtb_spec count 4) as [_ | Hle]; [split; reflexivity | lia].
  - intros Hc Hv t1.
    assert (Hst : msg_size_store PAGE_SIZE t v count =
                  (- EINVAL,
                   mkTopic 0 (msg_count t) (nreaders t) (nwriters t)
                           (wp t) (rp t) (len t) (rcount t) (buf t))).
    { unfold msg_size_store, MAX_MSG_SIZE.
      rewrite Hr, Hw. cbn [Z.eqb negb orb].
      destruct (Z.gtb_spec count 4); [lia |].
      destruct (Z.gtb_spec (u32 v) PAGE_SIZE); [reflexivity | lia]. }
    subst t1. rewrite Hst. cbn [fst snd msg_size msg_count].
    do 3 (split; [reflexivity |]).
    intros ok f. apply open_unready_topic. now left.
  - intros Hc Hv t1.
    assert (Hst : msg_count_store t v count =
                  (- EINVAL,
                   mkTopic (msg_size t) 0 (nreaders t) (nwriters t)
                           (wp t) (rp t) (len t) (rcount t) (buf t))).
    { unfold msg_count_store.
      rewrite Hr, Hw. cbn [Z.eqb negb orb].
      destruct (Z.gtb_spec count 4); [lia |].
      destruct (Z.gtb_spec (u32 v) MAX_MSG_COUNT); [reflexivity | lia]. }
    subst t1. rewrite Hst. cbn [fst snd msg_size msg_count].
    do 3 (split; [reflexivity |]).
    intros ok f. apply open_unready_topic. right. now left.
  - intros Hc Hv Hp t1 t2.
    assert (Hst1 : msg_size_store PAGE_SIZE t v count =
                   (count,
                    mkTopic 0 (msg_count t) (nreaders t) (nwriters t)
                            (wp t) (rp t) (len t) (rcount t) (buf t))).
    { unfold msg_size_store, MAX_MSG_SIZE.
      rewrite Hr, Hw, Hv. cbn [Z.eqb negb orb].
      destruct (Z.gtb_spec count 4); [lia |].
      destruct (Z.gtb_spec 0 PAGE_SIZE); [lia | reflexivity]. }
    assert (Hst2 : msg_count_store t v count =
                   (count,
                    mkTopic (msg_size t) 0 (nreaders t) (nwriters t)
                            (wp t) (rp t) (len t) (rcount t) (buf t))).
    { unfold msg_count_store.
      rewrite Hr, Hw, Hv. cbn [Z.eqb negb orb].
      destruct (Z.gtb_spec count 4); [lia |].
      reflexivity. }
    subst t1 t2. rewrite Hst1, Hst2. cbn [fst snd msg_size msg_count].
    do 4 (split; [reflexivity |]).
    intros ok f. split; apply open_unready_topic; [now left | right; now left].
Qed.

End AttributeStores.

(** The store of [msg_size] with a writer and a reader open. *)
Lemma store_with_open_handles_witness :
  msg_size_store 4096 (top (after opened)) 8 4 = (- EINVAL, top (after opened)).
Proof.
  refine (proj1 (proj1 (store_with_open_handles 4096 (top (after opened)) 8 4) _)).
  left. vm_compute. lia.
Defined.

(** The store of 4097 into [msg_size] with pages of 4096 bytes. *)
Lemma store_above_maximum_witness :
  fst (msg_size_store 4096 fresh_topic 4097 4) = - EINVAL.
Proof.
  refine (proj1 (proj1 (proj2 (store_above_maximum
                                  4096 fresh_topic 4097 4 _ _)) _ _)).
  - reflexivity.
  - reflexivity.
  - lia.
  - vm_compute. reflexivity.
Defined.

(** ** C9: what an open does to the topic *)

(** C9.  On a configured topic whose buffer is there or can be allocated,
    every open as reader or as writer succeeds, and sets [rp] to [wp] and
    [len] to zero for the whole topic, whatever they were, besides counting
    the file and placing its cursor on [wp]. *)
Theorem open_resets_tail_and_pending (ok : bool) (t : topic) (f : file) :
  msg_size t <> 0 -> msg_count t <> 0 ->
  buf t <> None \/ ok = true ->
  reader_mode f = true \/ writer_mode f = true ->
  exists t' f',
    kpub_open ok t f = (0, t', f') /\
    rp t' = wp t /\ len t' = 0 /\ wp t' = wp t /\ f_pos f' = wp t /\
    rcount t' = rcount t /\
    (reader_mode f = true ->
     nreaders t' = u32 (nreaders t + 1) /\ nwriters t' = nwriters t) /\
    (reader_mode f = false ->
     nwriters t' = u32 (nwriters t + 1) /\ nreaders t' = nreaders t).
Proof.
  intros Hs Hc Hbuf Hmode. unfold kpub_open.
  apply Z.eqb_neq in Hs. apply Z.eqb_neq in Hc. rewrite Hs, Hc. cbn [orb].
  assert (Hb : exists b,
             match buf t with
             | Some b => Some b
             | None =>
                 if ok then Some (repeat x00 (Z.to_nat (size t))) else None
             end = Some b).
  { destruct (buf t) as [b |]; [now exists b |].
    destruct Hbuf as [Hbuf | ->]; [contradiction | eauto]. }
  destruct Hb as [b ->].
  destruct (reader_mode f) eqn:Hrd.
  - do 2 eexists. split; [reflexivity |].
    cbn. repeat split; intros; discriminate.
  - destruct Hmode as [Hmode | ->]; [discriminate |].
    do 2 eexists. split; [reflexivity |].
    cbn. repeat split; intros; discriminate.
Qed.

(** A second reader opens while eight bytes are pending. *)
Lemma open_resets_tail_and_pending_witness :
  len (top (after published)) = 8 /\
  exists t' f',
    kpub_open true (top (after published)) (mkFile FMODE_READ O_RDONLY 0)
    = (0, t', f') /\
    rp t' = wp (top (after published)) /\ len t' = 0.
Proof.
  split; [reflexivity |].
  destruct (open_resets_tail_and_pending
              true (top (after published)) (mkFile FMODE_READ O_RDONLY 0))
    as (t' & f' & Hopen & Hrp & Hlen & _).
  - vm_compute. lia.
  - vm_compute. lia.
  - right. reflexivity.
  - left. reflexivity.
  - exists t', f'. repeat split; assumption.
Defined.

(** The accounting that an open throws away is missed later: a second
    reader opens while the first message is pending, the first reader then
    reads the message, and [len] goes below zero, that is to 2^32 - 8. *)
Lemma open_then_read_underflows_len :
  len (top (after late_open)) = 0 /\
  f_pos (file_of (after late_open) 1) = 0 /\
  wp (top (after late_open)) = 8 /\
  len (top (after (late_open ++ [OpRead 1 8]))) = 2 ^ 32 - 8.
Proof. vm_compute. repeat split. Qed.

(** ** C10: a read that finds the gate at zero *)

(** Reads of zero bytes complete as long as the file has something to
    read, and each of them takes one off [rcount]: runs of reads of any
    length exist. *)
Lemma idle_reads (k : nat) (t : topic) (f : file) (b : list byte) :
  buf t = Some b ->
  f_pos f <> wp t ->
  exists t', reads k t t' /\ wp t' = wp t /\ buf t' = buf t.
Proof.
  intros Hb Hoff. revert t Hb Hoff.
  induction k as [| k IH]; intros t Hb Hoff.
  - exists t. repeat split. constructor.
  - destruct (kpub_read t f 0) as [[[r t1] f1] out] eqn:Hread.
    assert (Hr : r = Returns 0).
    { unfold kpub_read in Hread.
      destruct (Z.eqb_spec (f_pos f) (wp t)); [contradiction |].
      rewrite Hb in Hread. cbv zeta in Hread.
      pose proof (u64_range (wp t - f_pos f)).
      pose proof (u64_range (size t - f_pos f)).
      assert (Hn : (if wp t >? f_pos f
                    then Z.min 0 (u64 (wp t - f_pos f))
                    else Z.min 0 (u64 (size t - f_pos f))) = 0)
        by (destruct (wp t >? f_pos f); lia).
      rewrite Hn in Hread. unfold in_buffer in Hread.
      cbn [Z.eqb orb negb] in Hread.
      now injection Hread as <- _ _ _. }
    subst r.
    destruct (kpub_read_completes _ _ _ _ _ _ _ Hread (Z.le_refl 0))
      as (_ & _ & _ & Hwp1 & _ & _ & _ & _ & Hb1).
    destruct (IH t1) as (t' & Hreads & Hwp' & Hb').
    + now rewrite Hb1.
    + now rewrite Hwp1.
    + exists t'. repeat split.
      * econstructor; [exact Hread | lia | exact Hreads].
      * congruence.
      * congruence.
Qed.

(** C10.  A read that completes while [rcount] is zero takes it to
    2^32 - 1 and reclaims nothing.  From there, as long as fewer than
    2^32 - 1 further reads have completed and no write has intervened,
    [rcount] is not zero and [rp] and [len] stay as they were; the read
    number 2^32 - 1 brings it to zero; and a write that is accepted at any
    point sets it to [nreaders]. *)
Theorem read_at_zero_gate_wraps (t : topic) (f : file) (count n : Z)
  (t1 : topic) (f1 : file) (out : list byte) :
  kpub_read t f count = (Returns n, t1, f1, out) ->
  0 <= n ->
  rcount t = 0 ->
  rcount t1 = 2 ^ 32 - 1 /\ rp t1 = rp t /\ len t1 = len t /\
  (forall k t2, reads k t1 t2 -> Z.of_nat k < 2 ^ 32 - 1 ->
     rcount t2 = 2 ^ 32 - 1 - Z.of_nat k /\ rcount t2 <> 0 /\
     rp t2 = rp t /\ len t2 = len t) /\
  (forall k t2, reads k t1 t2 -> Z.of_nat k = 2 ^ 32 - 1 -> rcount t2 = 0) /\
  (forall k t2 fw data m t3 taken,
     reads k t1 t2 ->
     kpub_write t2 fw data = (Returns m, t3, taken) -> 0 <= m ->
     rcount t3 = nreaders t2).
Proof.
  intros Hr Hn Hz.
  destruct (kpub_read_completes _ _ _ _ _ _ _ Hr Hn) as (_ & Hrc & Hgate & _).
  rewrite Hz, u32_pred_zero in Hrc.
  rewrite Hrc in Hgate. cbn [Z.eqb Z.pow Z.sub] in Hgate.
  change (2 ^ 32 - 1 =? 0) with false in Hgate.
  destruct Hgate as [Hrp Hlen].
  split; [exact Hrc |]. split; [exact Hrp |]. split; [exact Hlen |].
  split; [| split].
  - intros k t2 Hreads Hk.
    destruct (reads_frozen _ _ _ Hreads) as (Hc & Hrp2 & Hlen2); [lia |].
    repeat split; [lia | lia | congruence | congruence].
  - intros k t2 Hreads Hk.
    rewrite (reads_gate _ _ _ Hreads) by lia.
    rewrite Hrc, Hk. reflexivity.
  - intros k t2 fw data m t3 taken _ Hw Hm.
    now destruct (kpub_write_accepts _ _ _ _ _ _ Hw Hm) as (_ & Hrc3 & _).
Qed.

(** The second read of four bytes after [half_read]. *)
Lemma read_at_zero_gate_wraps_witness :
  rcount (top (after half_read)) = 0 /\
  rcount (top (after (half_read ++ [OpRead 1 4]))) = 2 ^ 32 - 1 /\
  rp (top (after (half_read ++ [OpRead 1 4]))) = rp (top (after half_read)) /\
  len (top (after (half_read ++ [OpRead 1 4]))) = len (top (after half_read)).
Proof.
  split; [reflexivity |].
  destruct (read_at_zero_gate_wraps
              (top (after half_read)) (file_of (after half_read) 1) 4 4
              (top (after (half_read ++ [OpRead 1 4])))
              (file_of (after (half_read ++ [OpRead 1 4])) 1)
              [x05; x06; x07; x08])
    as (Hrc & Hrp & Hlen & _).
  - vm_compute. reflexivity.
  - lia.
  - reflexivity.
  - repeat split; assumption.
Defined.

(** * The registry of topics *)

(** ** Arrays held as lists *)

Lemma length_list_set {A : Type} (l : list A) (i : nat) (x : A) :
  length (list_set l i x) = length l.
Proof.
  revert i. induction l as [| y rest IH]; intros [| k]; cbn; auto.
Qed.

Lemma nth_list_set_same {A : Type} (l : list A) (i : nat) (x d : A) :
  (i < length l)%nat -> nth i (list_set l i x) d = x.
Proof.
  revert i. induction l as [| y rest IH]; intros [| k] Hi; cbn in *;
    try lia; auto with arith.
Qed.

Lemma nth_list_set_other {A : Type} (l : list A) (i j : nat) (x d : A) :
  i <> j -> nth j (list_set l i x) d = nth j l d.
Proof.
  revert i j. induction l as [| y rest IH]; intros [| i] [| j] Hij; cbn;
    try reflexivity; try congruence.
  apply IH. congruence.
Qed.

Lemma list_set_twice {A : Type} (l : list A) (i : nat) (x y : A) :
  list_set (list_set l i x) i y = list_set l i y.
Proof.
  revert i. induction l as [| z rest IH]; intros [| k]; cbn; f_equal; auto.
Qed.

Lemma list_set_nth {A : Type} (l : list A) (i : nat) (d : A) :
  list_set l i (nth i l d) = l.
Proof.
  revert i. induction l as [| z rest IH]; intros [| k]; cbn; f_equal; auto.
Qed.

(** ** The minor numbers *)

(** What the loop of [reserve_minor_num] returns, started at [i] with
    [todo] entries to look at. *)
Lemma reserve_scan_spec (todo : nat) (i : Z) (m : list Z) :
  0 <= i ->
  (fst (reserve_scan todo i m) = -1 /\
   snd (reserve_scan todo i m) = m /\
   forall q, i <= q < i + Z.of_nat todo -> nth (Z.to_nat q) m 0 <> 0) \/
  (exists j,
     reserve_scan todo i m = (j, list_set m (Z.to_nat j) 1) /\
     i <= j < i + Z.of_nat todo /\
     nth (Z.to_nat j) m 0 = 0 /\
     forall q, i <= q < j -> nth (Z.to_nat q) m 0 <> 0).
Proof.
  revert i. induction todo as [| k IH]; intros i Hi.
  - left. cbn. repeat split. intros q Hq. lia.
  - cbn [reserve_scan].
    destruct (Z.eqb_spec (nth (Z.to_nat i) m 0) 0) as [Hfree | Hused].
    + right. exists i. repeat split; try lia; auto.
    + destruct (IH (i + 1)) as [(Hr & Hm & Hall) | (j & Hr & Hj & Hfree & Hall)];
        [lia | |].
      * left. repeat split; auto.
        intros q Hq. destruct (Z.eq_dec q i) as [-> | Hne]; [exact Hused |].
        apply Hall. lia.
      * right. exists j. repeat split; auto; try lia.
        intros q Hq. destruct (Z.eq_dec q i) as [-> | Hne]; [exact Hused |].
        apply Hall. lia.
Qed.

(** What [reserve_minor_num] returns on an array of [NUM_TOPICS]
    entries. *)
Lemma reserve_minor_num_inv (m m' : list Z) (j : Z) :
  length m = Z.to_nat NUM_TOPICS ->
  reserve_minor_num m = (j, m') ->
  (j = -1 /\ m' = m /\
   forall q, 0 <= q < NUM_TOPICS -> nth (Z.to_nat q) m 0 <> 0) \/
  (0 <= j < NUM_TOPICS /\ m' = list_set m (Z.to_nat j) 1 /\
   nth (Z.to_nat j) m 0 = 0 /\
   forall q, 0 <= q < j -> nth (Z.to_nat q) m 0 <> 0).
Proof.
  intros Hlen Hres. unfold reserve_minor_num in Hres.
  pose proof (reserve_scan_spec (Z.to_nat NUM_TOPICS) 0 m (Z.le_refl 0))
    as Hspec.
  rewrite Hres in Hspec. cbn [fst snd] in Hspec.
  rewrite Z2Nat.id in Hspec by (unfold NUM_TOPICS; lia).
  destruct Hspec as [(Hr & Hm & Hall) | (j' & Hr & Hrange & Hfree & Hall)].
  - left. repeat split; auto.
  - right. injection Hr as -> ->. repeat split; auto; try lia.
Qed.

(** X3.  A reservation that succeeds returns the lowest minor number that was
    free, marks it in use and leaves the other entries as they were. *)
Theorem reserve_takes_lowest_free (m m' : list Z) (j : Z) :
  length m = Z.to_nat NUM_TOPICS ->
  reserve_minor_num m = (j, m') ->
  0 <= j ->
  j < NUM_TOPICS /\
  nth (Z.to_nat j) m 0 = 0 /\
  (forall q, 0 <= q < j -> nth (Z.to_nat q) m 0 <> 0) /\
  nth (Z.to_nat j) m' 0 = 1 /\
  (forall q, 0 <= q -> q <> j -> nth (Z.to_nat q) m' 0 = nth (Z.to_nat q) m 0) /\
  length m' = length m.
Proof.
  intros Hlen Hres Hj.
  destruct (reserve_minor_num_inv m m' j Hlen Hres)
    as [(Hneg & _) | (Hrange & -> & Hfree & Hall)]; [lia |].
  repeat split; auto; try lia.
  - apply nth_list_set_same. rewrite Hlen. unfold NUM_TOPICS in *. lia.
  - intros q Hq Hne. apply nth_list_set_other. lia.
  - apply length_list_set.
Qed.

(** The first reservation on the empty array takes number 0. *)
Lemma reserve_takes_lowest_free_witness :
  nth 0 (snd (reserve_minor_num (minor_nums empty_registry))) 0 = 1.
Proof.
  destruct (reserve_takes_lowest_free
              (minor_nums empty_registry)
              (snd (reserve_minor_num (minor_nums empty_registry))) 0)
    as (_ & _ & _ & H & _).
  - reflexivity.
  - vm_compute. reflexivity.
  - lia.
  - exact H.
Defined.

(** X4.  A reservation fails exactly when the [NUM_TOPICS] minor numbers are all
    in use, and it then leaves the array as it was. *)
Theorem reserve_fails_when_full (m : list Z) :
  length m = Z.to_nat NUM_TOPICS ->
  (fst (reserve_minor_num m) = -1 <->
   forall q, 0 <= q < NUM_TOPICS -> nth (Z.to_nat q) m 0 <> 0) /\
  (fst (reserve_minor_num m) = -1 -> snd (reserve_minor_num m) = m).
Proof.
  intros Hlen.
  destruct (reserve_minor_num m) as [j m'] eqn:Hres. cbn [fst snd].
  destruct (reserve_minor_num_inv m m' j Hlen Hres)
    as [(-> & -> & Hall) | (Hrange & -> & Hfree & Hall)].
  - repeat split; auto.
  - split; [split |]; try lia.
    intros Hall'. exfalso. apply (Hall' j); [lia | exact Hfree].
Qed.

(** On the full array the reservation returns -1 and changes nothing. *)
Lemma reserve_fails_when_full_witness :
  snd (reserve_minor_num full_table) = full_table.
Proof.
  apply (proj2 (reserve_fails_when_full full_table eq_refl)).
  vm_compute. reflexivity.
Defined.

Lemma release_after_reserve (m m' : list Z) (j : Z) :
  length m = Z.to_nat NUM_TOPICS ->
  reserve_minor_num m = (j, m') ->
  0 <= j ->
  release_minor_num m' j = m.
Proof.
  intros Hlen Hres Hj.
  destruct (reserve_minor_num_inv m m' j Hlen Hres)
    as [(Hneg & _) | (Hrange & -> & Hfree & Hall)]; [lia |].
  unfold release_minor_num. rewrite list_set_twice.
  rewrite <- Hfree at 1. apply list_set_nth.
Qed.

(** X5.  Releasing the number a reservation returned gives the array back as it
    was before the reservation, and reserving again returns the same
    number. *)
Theorem release_undoes_reserve (m m' : list Z) (j : Z) :
  length m = Z.to_nat NUM_TOPICS ->
  reserve_minor_num m = (j, m') ->
  0 <= j ->
  release_minor_num m' j = m /\
  reserve_minor_num (release_minor_num m' j) = (j, m').
Proof.
  intros Hlen Hres Hj.
  rewrite (release_after_reserve m m' j Hlen Hres Hj). auto.
Qed.

(** Number 0 reserved on the empty array and released again. *)
Lemma release_undoes_reserve_witness :
  release_minor_num (snd (reserve_minor_num (minor_nums empty_registry))) 0
  = minor_nums empty_registry.
Proof.
  apply (proj1 (release_undoes_reserve
                  (minor_nums empty_registry)
                  (snd (reserve_minor_num (minor_nums empty_registry))) 0
                  eq_refl eq_refl (Z.le_refl 0))).
Defined.

(** Two reservations in a row never return the same number: the second one
    is above the first. *)
Lemma reserve_twice_differs (m m1 m2 : list Z) (i j : Z) :
  length m = Z.to_nat NUM_TOPICS ->
  reserve_minor_num m = (i, m1) -> 0 <= i ->
  reserve_minor_num m1 = (j, m2) -> 0 <= j ->
  i < j.
Proof.
  intros Hlen H1 Hi H2 Hj.
  destruct (reserve_minor_num_inv m m1 i Hlen H1)
    as [(Hneg & _) | (Hri & -> & Hfree & Hbelow)]; [lia |].
  destruct (reserve_minor_num_inv _ m2 j (eq_trans (length_list_set _ _ _) Hlen) H2)
    as [(Hneg & _) | (Hrj & _ & Hfree2 & _)]; [lia |].
  destruct (Z.lt_trichotomy i j) as [Hlt | [Heq | Hgt]]; [exact Hlt | |].
  - subst j. rewrite nth_list_set_same in Hfree2; [discriminate |].
    rewrite Hlen. unfold NUM_TOPICS in *. lia.
  - exfalso. apply (Hbelow j); [lia |].
    rewrite nth_list_set_other in Hfree2 by lia. exact Hfree2.
Qed.

(** X6.  A number that has been released is available again: the next
    reservation succeeds and returns that number or a lower one. *)
Theorem released_number_is_free (m : list Z) (i : Z) :
  length m = Z.to_nat NUM_TOPICS ->
  0 <= i < NUM_TOPICS ->
  0 <= fst (reserve_minor_num (release_minor_num m i)) <= i.
Proof.
  intros Hlen Hi.
  assert (Hlen' : length (release_minor_num m i) = Z.to_nat NUM_TOPICS)
    by (unfold release_minor_num; now rewrite length_list_set).
  assert (Hzero : nth (Z.to_nat i) (release_minor_num m i) 0 = 0).
  { unfold release_minor_num. apply nth_list_set_same.
    rewrite Hlen. unfold NUM_TOPICS in *. lia. }
  destruct (reserve_minor_num (release_minor_num m i)) as [j m'] eqn:Hres.
  cbn [fst].
  destruct (reserve_minor_num_inv _ m' j Hlen' Hres)
    as [(_ & _ & Hall) | (Hrange & _ & Hfree & Hall)].
  - exfalso. apply (Hall i); [lia | exact Hzero].
  - split; [lia |].
    destruct (Z_le_gt_dec j i) as [Hle | Hgt]; [exact Hle |].
    exfalso. apply (Hall i); [lia | exact Hzero].
Qed.

(** Number 5 released on the full array. *)
Lemma released_number_is_free_witness :
  0 <= fst (reserve_minor_num (release_minor_num full_table 5)) <= 5.
Proof.
  apply (released_number_is_free full_table 5).
  - reflexivity.
  - unfold NUM_TOPICS. lia.
Defined.

(** ** Names *)

Lemma bytes_eqb_eq (xs ys : list byte) : bytes_eqb xs ys = true <-> xs = ys.
Proof.
  revert ys. induction xs as [| x xs IH]; intros [| y ys]; cbn;
    try (split; [discriminate | discriminate]); [tauto |].
  rewrite andb_true_iff, IH. split.
  - intros [Hxy ->]. f_equal. now apply Byte.byte_dec_bl.
  - intros [= -> ->]. split; [now apply Byte.byte_dec_lb | reflexivity].
Qed.

Lemma same_name_iff (name buf : list byte) :
  same_name name buf = true <-> cstr name = cstr buf.
Proof. apply bytes_eqb_eq. Qed.

Lemma cstr_app_zeros (l : list byte) (k : nat) :
  cstr (l ++ repeat x00 k) = cstr l.
Proof.
  induction l as [| c rest IH]; cbn.
  - destruct k; reflexivity.
  - destruct (Byte.eqb c x00); [reflexivity | now rewrite IH].
Qed.

Lemma length_cstr (l : list byte) : (length (cstr l) <= length l)%nat.
Proof.
  induction l as [| c rest IH]; cbn; [lia |].
  destruct (Byte.eqb c x00); cbn; lia.
Qed.

(** A name with a NUL in it is a C string. *)
Lemma cstr_terminated (l : list byte) :
  existsb (Byte.eqb x00) l = true <-> (length (cstr l) < length l)%nat.
Proof.
  induction l as [| c rest IH]; cbn; [split; [discriminate | lia] |].
  destruct c; cbn; try (rewrite IH; lia). split; [lia | reflexivity].
Qed.

(** ** The list of topics *)

Lemma find_topic_some (ts : list entry) (buf : list byte) (pos : nat) :
  find_topic ts buf = Some pos ->
  exists pre e post,
    ts = pre ++ e :: post /\ length pre = pos /\
    same_name (e_name e) buf = true /\
    forall e', In e' pre -> same_name (e_name e') buf = false.
Proof.
  revert pos. induction ts as [| e rest IH]; intros pos; cbn; [discriminate |].
  destruct (same_name (e_name e) buf) eqn:Hsame.
  - intros [= <-]. exists [], e, rest. repeat split; auto. intros e' [].
  - destruct (find_topic rest buf) as [p |]; [| discriminate].
    intros [= <-].
    destruct (IH p eq_refl) as (pre & e0 & post & -> & Hlen & Hmatch & Hpre).
    exists (e :: pre), e0, post. cbn. repeat split; auto.
    intros e' [<- | Hin]; auto.
Qed.

Lemma find_topic_none (ts : list entry) (buf : list byte) :
  find_topic ts buf = None <->
  forall e, In e ts -> same_name (e_name e) buf = false.
Proof.
  induction ts as [| e rest IH]; cbn.
  - split; auto. intros _ e [].
  - destruct (same_name (e_name e) buf) eqn:Hsame.
    + split; [discriminate |]. intros H. rewrite (H e) in Hsame; auto.
      discriminate.
    + destruct (find_topic rest buf) as [p |]; cbn.
      * split; [discriminate |]. intros H.
        assert (Hnone : Some p = None) by (apply IH; auto).
        discriminate.
      * split; auto. intros _ e' [<- | Hin]; auto. now apply IH.
Qed.

Lemma unlink_middle (pre post : list entry) (e : entry) :
  unlink (pre ++ e :: post) (length pre) = pre ++ post.
Proof. induction pre as [| x pre IH]; cbn; [reflexivity | now rewrite IH]. Qed.

Lemma nth_error_middle (pre post : list entry) (e : entry) :
  nth_error (pre ++ e :: post) (length pre) = Some e.
Proof. induction pre as [| x pre IH]; cbn; auto. Qed.

(** The first element of a list that passes a test is found at one place
    only. *)
Lemma first_match_unique (p : entry -> bool) (pre pre' post post' : list entry)
  (e e' : entry) :
  pre ++ e :: post = pre' ++ e' :: post' ->
  p e = true -> p e' = true ->
  (forall x, In x pre -> p x = false) ->
  (forall x, In x pre' -> p x = false) ->
  pre' = pre /\ e' = e /\ post' = post.
Proof.
  revert pre'. induction pre as [| x pre IH]; intros [| y pre'] Heq He He' Hpre Hpre';
    cbn in Heq; injection Heq as Hhd Htl.
  - subst. auto.
  - subst y. rewrite (Hpre' e) in He by now left. discriminate.
  - subst x. rewrite (Hpre e') in He' by now left. discriminate.
  - subst y.
    destruct (IH pre' Htl He He') as (-> & -> & ->); auto.
    + intros z Hz. apply Hpre. now right.
    + intros z Hz. apply Hpre'. now right.
Qed.

(** What a removal that finds its topic does: the topics before and after
    the one found stay, and its minor number is released. *)
Lemma remove_topic_store_found (r : registry) (buf : list byte)
  (pre post : list entry) (e : entry) :
  Z.of_nat (length buf) < MAX_STR_LEN ->
  topic_mtx r = false ->
  topics r = pre ++ e :: post ->
  same_name (e_name e) buf = true ->
  (forall e', In e' pre -> same_name (e_name e') buf = false) ->
  remove_topic_store r buf =
  (Returns (Z.of_nat (length buf)),
   mkRegistry (release_minor_num (minor_nums r) (e_id e)) (pre ++ post) false).
Proof.
  intros Hlen Hmtx Hts Hmatch Hpre. unfold remove_topic_store.
  destruct (Z.geb_spec (Z.of_nat (length buf)) MAX_STR_LEN); [lia |].
  rewrite Hmtx.
  destruct (find_topic (topics r) buf) as [pos |] eqn:Hfind.
  - destruct (find_topic_some _ _ _ Hfind)
      as (pre' & e' & post' & Hts' & Hpos & Hmatch' & Hpre').
    assert (Hsame : pre' = pre /\ e' = e /\ post' = post).
    { rewrite Hts in Hts'.
      apply (first_match_unique (fun x => same_name (e_name x) buf)); auto. }
    destruct Hsame as (-> & -> & ->). subst pos.
    unfold delete_topic. rewrite Hts, nth_error_middle, unlink_middle.
    reflexivity.
  - apply find_topic_none with (e := e) in Hfind.
    + rewrite Hfind in Hmatch. discriminate.
    + rewrite Hts. apply in_or_app. right. now left.
Qed.

(** ** Creation and removal *)

(** The three ways [create_topic_store] ends: before the mutex is taken,
    with an error after it is taken, or with a new topic. *)
Lemma create_topic_store_inv (k : kcalls) (r : registry) (buf : list byte)
  (o : outcome) (r' : registry) :
  create_topic_store k r buf = (o, r') ->
  (r' = r /\
   (o = Returns (- EINVAL) /\
    (length buf = 0%nat \/ MAX_STR_LEN < Z.of_nat (length buf)) \/
    o = Sleeps /\ topic_mtx r = true)) \/
  (0 < Z.of_nat (length buf) <= MAX_STR_LEN /\ topic_mtx r = false /\
   topic_mtx r' = true /\ topics r' = topics r /\
   (minor_nums r' = minor_nums r \/
    minor_nums r' = snd (reserve_minor_num (minor_nums r))) /\
   exists e, o = Returns e /\ (e < 0 \/ e = device_register k /\ e <> 0)) \/
  (0 < Z.of_nat (length buf) <= MAX_STR_LEN /\ topic_mtx r = false /\
   o = Returns (Z.of_nat (length buf)) /\
   exists j,
     0 <= j /\
     reserve_minor_num (minor_nums r) = (j, minor_nums r') /\
     topics r' = mkEntry (filled_name buf) j zeroed_topic :: topics r /\
     topic_mtx r' = false).
Proof.
  unfold create_topic_store. intros H.
  destruct (Z.eqb_spec (Z.of_nat (length buf)) 0) as [Hz | Hnz].
  { injection H as <- <-. left. split; auto. left. split; auto. left. lia. }
  destruct (Z.gtb_spec (Z.of_nat (length buf)) MAX_STR_LEN) as [Hbig | Hfit].
  { injection H as <- <-. left. split; auto. }
  destruct (topic_mtx r) eqn:Hmtx.
  { injection H as <- <-. left. split; auto. }
  assert (Hlen : 0 < Z.of_nat (length buf) <= MAX_STR_LEN) by lia.
  destruct (kzalloc_topic k); cbn [negb] in H.
  2:{ injection H as <- <-. right. left. cbn. do 5 (split; [solve [auto] |]).
      exists (- ENOMEM). unfold ENOMEM. split; [reflexivity | lia]. }
  destruct (reserve_minor_num (minor_nums r)) as [j m] eqn:Hres.
  destruct (Z.ltb_spec j 0) as [Hneg | Hj].
  { injection H as <- <-. right. left. cbn. do 5 (split; [solve [auto] |]).
    exists (- E2BIG). unfold E2BIG. split; [reflexivity | lia]. }
  destruct (Z.ltb_spec (cdev_add k) 0) as [Hc | Hc].
  { injection H as <- <-. right. left. cbn. do 5 (split; [solve [auto] |]).
    exists (cdev_add k). split; [reflexivity | lia]. }
  destruct (Z.ltb_spec (kobject_set_name k) 0) as [Hs | Hs].
  { injection H as <- <-. right. left. cbn. do 5 (split; [solve [auto] |]).
    exists (kobject_set_name k). split; [reflexivity | lia]. }
  destruct (Z.eqb_spec (device_register k) 0) as [Hd | Hd]; cbn [negb] in H.
  - injection H as <- <-. right. right. cbn. do 3 (split; [solve [auto] |]).
    exists j. repeat split; auto.
  - injection H as <- <-. right. left. cbn. do 5 (split; [solve [auto] |]).
    exists (device_register k). split; [reflexivity | right; auto].
Qed.

(** The ways [remove_topic_store] ends: without a change, or with the first
    topic of that name taken out of the list. *)
Lemma remove_topic_store_inv (r : registry) (buf : list byte)
  (o : outcome) (r' : registry) :
  remove_topic_store r buf = (o, r') ->
  (r' = r /\ o <> Returns (Z.of_nat (length buf))) \/
  (Z.of_nat (length buf) < MAX_STR_LEN /\ topic_mtx r = false /\
   o = Returns (Z.of_nat (length buf)) /\
   exists pre e post,
     topics r = pre ++ e :: post /\
     same_name (e_name e) buf = true /\
     (forall e', In e' pre -> same_name (e_name e') buf = false) /\
     r' = mkRegistry (release_minor_num (minor_nums r) (e_id e))
                     (pre ++ post) false).
Proof.
  unfold remove_topic_store. intros H.
  destruct (Z.geb_spec (Z.of_nat (length buf)) MAX_STR_LEN) as [Hbig | Hfit].
  { injection H as <- <-. left. split; auto.
    unfold EINVAL. intros [= Heq]. lia. }
  destruct (topic_mtx r) eqn:Hmtx.
  { injection H as <- <-. left. split; auto. discriminate. }
  destruct (find_topic (topics r) buf) as [pos |] eqn:Hfind.
  - destruct (find_topic_some _ _ _ Hfind)
      as (pre & e & post & Hts & Hpos & Hmatch & Hpre).
    injection H as <- <-. right. do 3 (split; [solve [auto] |]).
    exists pre, e, post. repeat split; auto.
    unfold delete_topic. subst pos.
    rewrite Hts, nth_error_middle, unlink_middle. reflexivity.
  - injection H as <- <-. left. split; auto.
    unfold ENODEV. intros [= Heq]. lia.
Qed.

(** ** What the registry keeps *)

Lemma ids_distinct_middle (pre post : list entry) (e e' : entry) :
  NoDup (map e_id (pre ++ e :: post)) ->
  In e' (pre ++ post) -> e_id e' <> e_id e.
Proof.
  rewrite map_app. cbn [map]. intros Hnd Hin Heq.
  apply NoDup_remove_2 in Hnd. apply Hnd.
  rewrite <- map_app, <- Heq. now apply in_map.
Qed.

Lemma nth_release_other (m : list Z) (i q : Z) :
  0 <= i -> 0 <= q -> q <> i ->
  nth (Z.to_nat q) (release_minor_num m i) 0 = nth (Z.to_nat q) m 0.
Proof.
  intros Hi Hq Hne. unfold release_minor_num.
  apply nth_list_set_other. lia.
Qed.

Lemma nth_release_same (m : list Z) (i : Z) :
  length m = Z.to_nat NUM_TOPICS -> 0 <= i < NUM_TOPICS ->
  nth (Z.to_nat i) (release_minor_num m i) 0 = 0.
Proof.
  intros Hlen Hi. unfold release_minor_num.
  apply nth_list_set_same. rewrite Hlen. unfold NUM_TOPICS in *. lia.
Qed.

(** Taking a topic out of the list and releasing its number keeps the
    registry in order. *)
Lemma unlink_registry_ok (m : list Z) (pre post : list entry) (e : entry)
  (b b' : bool) :
  registry_ok (mkRegistry m (pre ++ e :: post) b) ->
  registry_ok (mkRegistry (release_minor_num m (e_id e)) (pre ++ post) b').
Proof.
  intros [Hlen Hids Hnd]. cbn [minor_nums topics] in *.
  constructor; cbn [minor_nums topics].
  - unfold release_minor_num. now rewrite length_list_set.
  - intros e' Hin.
    assert (Hin' : In e' (pre ++ e :: post)).
    { apply in_app_or in Hin. apply in_or_app.
      destruct Hin; [now left | right; now right]. }
    destruct (Hids e' Hin') as [Hrange Hmark].
    destruct (Hids e) as [Hrange_e _];
      [apply in_or_app; right; now left |].
    split; [exact Hrange |].
    rewrite nth_release_other; try lia; auto.
    now apply (ids_distinct_middle pre post).
  - rewrite map_app in *. cbn [map] in Hnd.
    now apply NoDup_remove_1 in Hnd.
Qed.

Lemma reserve_registry_ok (m m' : list Z) (j : Z) (ts : list entry) (b b' : bool) :
  registry_ok (mkRegistry m ts b) ->
  reserve_minor_num m = (j, m') ->
  registry_ok (mkRegistry m' ts b').
Proof.
  intros [Hlen Hids Hnd] Hres. cbn [minor_nums topics] in *.
  destruct (reserve_minor_num_inv m m' j Hlen Hres)
    as [(_ & -> & _) | (Hrange & -> & Hfree & _)].
  - now constructor.
  - constructor; cbn [minor_nums topics]; auto.
    + now rewrite length_list_set.
    + intros e Hin. destruct (Hids e Hin) as [Hr Hmark]. split; [exact Hr |].
      destruct (Z.eq_dec (e_id e) j) as [Heq | Hne].
      * rewrite Heq, nth_list_set_same; [discriminate |].
        rewrite Hlen. unfold NUM_TOPICS in *. lia.
      * rewrite nth_list_set_other by lia. exact Hmark.
Qed.

Lemma empty_registry_ok : registry_ok empty_registry.
Proof.
  constructor; cbn [empty_registry minor_nums topics].
  - apply repeat_length.
  - intros e [].
  - constructor.
Qed.

Lemma one_topic_ok : registry_ok one_topic.
Proof.
  constructor.
  - reflexivity.
  - intros e Hin. vm_compute in Hin. destruct Hin as [<- | []].
    vm_compute. split; [split; [discriminate | reflexivity] | discriminate].
  - vm_compute. repeat constructor. intros [].
Qed.

(** X7.  In every registry the operations reach, each topic holds a minor number
    that is marked in use, and no two topics hold the same one: creation,
    removal and the unloading of the module keep [registry_ok]. *)
Theorem registry_ok_preserved (k : kcalls) (r : registry) (buf : list byte) :
  registry_ok r ->
  registry_ok (snd (create_topic_store k r buf)) /\
  registry_ok (snd (remove_topic_store r buf)) /\
  registry_ok (kpub_exit r).
Proof.
  intros Hok. split; [| split].
  - destruct (create_topic_store k r buf) as [o r'] eqn:Hc. cbn [snd].
    destruct (create_topic_store_inv _ _ _ _ _ Hc)
      as [(-> & _) | [(_ & _ & Hm & Hts & Hnums & _) |
                      (_ & _ & _ & j & Hj & Hres & Hts & Hm)]];
      [exact Hok | |].
    + destruct r as [m ts b], r' as [m' ts' b']. cbn [minor_nums topics topic_mtx] in *. subst ts' b'.
      destruct Hnums as [-> | ->].
      * destruct Hok as [Hlen Hids Hnd]. now constructor.
      * destruct (reserve_minor_num m) as [j m1] eqn:Hres.
        now apply (reserve_registry_ok m m1 j ts b).
    + destruct r as [m ts b], r' as [m' ts' b']. cbn [minor_nums topics topic_mtx] in *. subst ts' b'.
      pose proof (reserve_registry_ok m m' j ts b false Hok Hres)
        as [Hlen' Hids' Hnd'].
      destruct Hok as [Hlen Hids Hnd]. cbn [minor_nums topics] in *.
      destruct (reserve_minor_num_inv m m' j Hlen Hres)
        as [(Hneg & _) | (Hrange & -> & Hfree & _)]; [lia |].
      constructor; cbn [minor_nums topics]; auto.
      * intros e [<- | Hin]; [| now apply Hids'].
        cbn [e_id]. split; [exact Hrange |].
        rewrite nth_list_set_same; [discriminate |].
        rewrite Hlen. unfold NUM_TOPICS in *. lia.
      * cbn [map e_id]. constructor; [| exact Hnd].
        intros Hin. apply in_map_iff in Hin.
        destruct Hin as (e & Heq & Hin).
        destruct (Hids e Hin) as [_ Hmark]. rewrite Heq in Hmark.
        contradiction.
  - destruct (remove_topic_store r buf) as [o r'] eqn:Hr. cbn [snd].
    destruct (remove_topic_store_inv _ _ _ _ Hr)
      as [(-> & _) | (_ & _ & _ & pre & e & post & Hts & _ & _ & ->)];
      [exact Hok |].
    destruct r as [m ts b]. cbn [minor_nums topics topic_mtx] in *. subst ts.
    now apply (unlink_registry_ok m pre post e b).
  - unfold kpub_exit.
    assert (Hloop : forall todo r0, registry_ok r0 ->
                                    registry_ok (exit_loop todo r0)).
    { induction todo as [| n IH]; intros r0 H0; cbn; [exact H0 |].
      apply IH. unfold delete_topic.
      destruct r0 as [m ts b]. cbn [topics minor_nums topic_mtx].
      destruct ts as [| e rest]; cbn; [exact H0 |].
      now apply (unlink_registry_ok m [] rest e b). }
    now apply Hloop.
Qed.

(** The registry with the topic "abc" is in order. *)
Lemma registry_ok_preserved_witness : registry_ok one_topic.
Proof.
  apply (proj1 (registry_ok_preserved all_ok empty_registry name_abc
                  empty_registry_ok)).
Defined.

(** X8.  An empty name and a name of more than [MAX_STR_LEN] bytes are refused
    with [-EINVAL] before anything is looked at: the registry is as it was,
    whether or not the mutex is held. *)
Theorem create_rejects_bad_length (k : kcalls) (r : registry) (buf : list byte) :
  length buf = 0%nat \/ MAX_STR_LEN < Z.of_nat (length buf) ->
  create_topic_store k r buf = (Returns (- EINVAL), r).
Proof.
  intros Hbad. unfold create_topic_store.
  destruct (Z.eqb_spec (Z.of_nat (length buf)) 0); [reflexivity |].
  destruct (Z.gtb_spec (Z.of_nat (length buf)) MAX_STR_LEN); [reflexivity |].
  lia.
Qed.

(** The empty name. *)
Lemma create_rejects_bad_length_witness :
  create_topic_store all_ok empty_registry [] =
  (Returns (- EINVAL), empty_registry).
Proof.
  apply (create_rejects_bad_length all_ok empty_registry []).
  left. reflexivity.
Defined.

(** X9.  Creating a topic and removing it by the same name gives the registry
    back: the list of topics and the array of minor numbers are as before
    the creation, and the mutex is free. *)
Theorem create_then_remove_restores (k : kcalls) (r r1 : registry)
  (buf : list byte) :
  length (minor_nums r) = Z.to_nat NUM_TOPICS ->
  Z.of_nat (length buf) < MAX_STR_LEN ->
  device_register k <= 0 ->
  create_topic_store k r buf = (Returns (Z.of_nat (length buf)), r1) ->
  remove_topic_store r1 buf = (Returns (Z.of_nat (length buf)), r).
Proof.
  intros Hlen Hshort Hd Hc.
  destruct (create_topic_store_inv _ _ _ _ _ Hc)
    as [(_ & [(Hinv & _) | (Hs & _)]) |
        [(Hfit & _ & _ & _ & _ & e & He & Hneg) |
         (Hfit & Hmtx & _ & j & Hj & Hres & Hts & Hm1)]];
    try discriminate.
  - injection Hinv as Hinv. unfold EINVAL in Hinv. lia.
  - injection He as He. lia.
  - destruct r1 as [m1 ts1 b1]. cbn [minor_nums topics topic_mtx] in *.
    subst ts1 b1.
    rewrite (remove_topic_store_found _ buf [] (topics r)
               (mkEntry (filled_name buf) j zeroed_topic)); auto.
    + cbn [e_id app minor_nums].
      rewrite (release_after_reserve _ _ _ Hlen Hres Hj).
      destruct r as [m ts b]. cbn [topic_mtx] in Hmtx. now subst b.
    + apply same_name_iff. cbn [e_name]. apply cstr_app_zeros.
    + intros e' [].
Qed.

(** "abc" created in the empty registry and removed again. *)
Lemma create_then_remove_restores_witness :
  remove_topic_store one_topic name_abc = (Returns 3, empty_registry).
Proof.
  apply (create_then_remove_restores all_ok empty_registry one_topic name_abc).
  - reflexivity.
  - vm_compute. reflexivity.
  - vm_compute. discriminate.
  - vm_compute. reflexivity.
Defined.

(** X10.  The topic a creation adds is at the head of the list, is the one a
    removal by that name finds, shows the name it was given up to its first
    NUL, and is not configured. *)
Theorem created_topic_shows_its_name (k : kcalls) (r r1 : registry)
  (buf : list byte) :
  Z.of_nat (length buf) < MAX_STR_LEN ->
  device_register k <= 0 ->
  create_topic_store k r buf = (Returns (Z.of_nat (length buf)), r1) ->
  exists e,
    topics r1 = e :: topics r /\
    find_topic (topics r1) buf = Some O /\
    name_show e = (Returns (Z.of_nat (length (cstr buf))), cstr buf) /\
    e_topic e = zeroed_topic.
Proof.
  intros Hshort Hd Hc.
  destruct (create_topic_store_inv _ _ _ _ _ Hc)
    as [(_ & [(Hinv & _) | (Hs & _)]) |
        [(Hfit & _ & _ & _ & _ & e & He & Hneg) |
         (Hfit & Hmtx & _ & j & Hj & Hres & Hts & Hm1)]];
    try discriminate.
  - injection Hinv as Hinv. unfold EINVAL in Hinv. lia.
  - injection He as He. lia.
  - exists (mkEntry (filled_name buf) j zeroed_topic).
    assert (Hcstr : cstr (filled_name buf) = cstr buf) by apply cstr_app_zeros.
    assert (Hsame : same_name (filled_name buf) buf = true)
      by now apply same_name_iff.
    split; [exact Hts |]. split; [| split; [| reflexivity]].
    + rewrite Hts. cbn [find_topic e_name]. now rewrite Hsame.
    + unfold name_show. cbn [e_name].
      assert (Hterm : existsb (Byte.eqb x00) (filled_name buf) = true).
      { apply cstr_terminated. rewrite Hcstr.
        pose proof (length_cstr buf).
        unfold filled_name. rewrite length_app, repeat_length.
        unfold MAX_STR_LEN in *. lia. }
      now rewrite Hterm, Hcstr.
Qed.

(** The topic "abc" shows the three bytes of its name. *)
Lemma created_topic_shows_its_name_witness :
  exists e,
    topics one_topic = e :: topics empty_registry /\
    find_topic (topics one_topic) name_abc = Some O /\
    name_show e = (Returns (Z.of_nat (length (cstr name_abc))), cstr name_abc) /\
    e_topic e = zeroed_topic.
Proof.
  apply (created_topic_shows_its_name all_ok empty_registry one_topic name_abc).
  - vm_compute. reflexivity.
  - vm_compute. discriminate.
  - vm_compute. reflexivity.
Defined.

(** X11.  A creation that fails after the length checks leaves the mutex held:
    the list of topics is as it was, and from then on every creation and
    every removal that gets to the mutex goes to sleep on it. *)
Theorem failed_create_keeps_mutex (k : kcalls) (r r' : registry)
  (buf : list byte) (e : Z) :
  0 < Z.of_nat (length buf) <= MAX_STR_LEN ->
  topic_mtx r = false ->
  create_topic_store k r buf = (Returns e, r') ->
  e < 0 ->
  topics r' = topics r /\ topic_mtx r' = true /\
  (forall k' buf',
     0 < Z.of_nat (length buf') <= MAX_STR_LEN ->
     create_topic_store k' r' buf' = (Sleeps, r')) /\
  (forall buf',
     Z.of_nat (length buf') < MAX_STR_LEN ->
     remove_topic_store r' buf' = (Sleeps, r')).
Proof.
  intros Hfit Hmtx Hc He.
  destruct (create_topic_store_inv _ _ _ _ _ Hc)
    as [(_ & [(_ & Hbad) | (Hs & _)]) |
        [(_ & _ & Hheld & Hts & _) |
         (_ & _ & Hret & _)]];
    try discriminate; try lia.
  - split; [exact Hts |]. split; [exact Hheld |]. split.
    + intros k' buf' Hfit'. unfold create_topic_store.
      destruct (Z.eqb_spec (Z.of_nat (length buf')) 0); [lia |].
      destruct (Z.gtb_spec (Z.of_nat (length buf')) MAX_STR_LEN); [lia |].
      now rewrite Hheld.
    + intros buf' Hfit'. unfold remove_topic_store.
      destruct (Z.geb_spec (Z.of_nat (length buf')) MAX_STR_LEN); [lia |].
      now rewrite Hheld.
  - injection Hret as Hret. lia.
Qed.

(** [cdev_add] fails while "abc" is created in the empty registry. *)
Lemma failed_create_keeps_mutex_witness :
  topic_mtx (snd (create_topic_store cdev_add_fails empty_registry name_abc))
  = true.
Proof.
  destruct (failed_create_keeps_mutex
              cdev_add_fails empty_registry
              (snd (create_topic_store cdev_add_fails empty_registry name_abc))
              name_abc (- ENOMEM))
    as (_ & H & _).
  - vm_compute. split; [reflexivity | discriminate].
  - reflexivity.
  - vm_compute. reflexivity.
  - vm_compute. reflexivity.
  - exact H.
Defined.

(** X12.  A creation that fails in [cdev_add], [kobject_set_name] or
    [device_register] does not give back the minor number it reserved: the
    number goes from free to in use although no topic of the list holds
    it. *)
Theorem failed_create_keeps_minor (k : kcalls) (r : registry)
  (buf : list byte) (j : Z) (m' : list Z) :
  registry_ok r ->
  0 < Z.of_nat (length buf) <= MAX_STR_LEN ->
  topic_mtx r = false ->
  kzalloc_topic k = true ->
  cdev_add k < 0 \/ kobject_set_name k < 0 \/ device_register k <> 0 ->
  reserve_minor_num (minor_nums r) = (j, m') ->
  0 <= j ->
  topics (snd (create_topic_store k r buf)) = topics r /\
  nth (Z.to_nat j) (minor_nums r) 0 = 0 /\
  nth (Z.to_nat j) (minor_nums (snd (create_topic_store k r buf))) 0 = 1 /\
  forall e, In e (topics r) -> e_id e <> j.
Proof.
  intros [Hlen Hids Hnd] Hfit Hmtx Hk Hfail Hres Hj.
  destruct (reserve_minor_num_inv _ _ _ Hlen Hres)
    as [(Hneg & _) | (Hrange & -> & Hfree & _)]; [lia |].
  assert (Hone : nth (Z.to_nat j) (list_set (minor_nums r) (Z.to_nat j) 1) 0 = 1).
  { apply nth_list_set_same. rewrite Hlen. unfold NUM_TOPICS in *. lia. }
  assert (Hnew : forall e, In e (topics r) -> e_id e <> j).
  { intros e Hin Heq. destruct (Hids e Hin) as [_ Hmark].
    rewrite Heq in Hmark. contradiction. }
  unfold create_topic_store.
  destruct (Z.eqb_spec (Z.of_nat (length buf)) 0); [lia |].
  destruct (Z.gtb_spec (Z.of_nat (length buf)) MAX_STR_LEN); [lia |].
  rewrite Hmtx, Hk, Hres. cbn [negb].
  destruct (Z.ltb_spec j 0); [lia |].
  destruct (Z.ltb_spec (cdev_add k) 0); [cbn; auto |].
  destruct (Z.ltb_spec (kobject_set_name k) 0); [cbn; auto |].
  destruct (Z.eqb_spec (device_register k) 0); cbn [negb]; [lia | cbn; auto].
Qed.

(** The same failure leaves number 0 in use. *)
Lemma failed_create_keeps_minor_witness :
  nth 0 (minor_nums
           (snd (create_topic_store cdev_add_fails empty_registry name_abc))) 0
  = 1.
Proof.
  destruct (failed_create_keeps_minor
              cdev_add_fails empty_registry name_abc 0
              (snd (reserve_minor_num (minor_nums empty_registry))))
    as (_ & _ & H & _).
  - exact empty_registry_ok.
  - vm_compute. split; [reflexivity | discriminate].
  - reflexivity.
  - reflexivity.
  - left. vm_compute. reflexivity.
  - vm_compute. reflexivity.
  - lia.
  - exact H.
Defined.

(** X13.  A removal by a name that no topic of the list has returns [-ENODEV]
    and changes nothing. *)
Theorem remove_unknown_name (r : registry) (buf : list byte) :
  Z.of_nat (length buf) < MAX_STR_LEN ->
  topic_mtx r = false ->
  (forall e, In e (topics r) -> cstr (e_name e) <> cstr buf) ->
  remove_topic_store r buf = (Returns (- ENODEV), r).
Proof.
  intros Hfit Hmtx Hnone. unfold remove_topic_store.
  destruct (Z.geb_spec (Z.of_nat (length buf)) MAX_STR_LEN); [lia |].
  rewrite Hmtx.
  replace (find_topic (topics r) buf) with (@None nat); [reflexivity |].
  symmetry. apply find_topic_none. intros e Hin.
  destruct (same_name (e_name e) buf) eqn:Hsame; [| reflexivity].
  apply same_name_iff in Hsame. now apply Hnone in Hin.
Qed.

(** "xyz" is removed from the registry that holds "abc" only. *)
Lemma remove_unknown_name_witness :
  remove_topic_store one_topic name_xyz = (Returns (- ENODEV), one_topic).
Proof.
  apply (remove_unknown_name one_topic name_xyz).
  - vm_compute. reflexivity.
  - reflexivity.
  - intros e [<- | []]. vm_compute. discriminate.
Defined.

(** X14.  A removal takes out one topic, the newest of that name: the topics
    before and after it stay in their order and keep their minor numbers,
    and the number of the topic removed is free again. *)
Theorem remove_takes_newest_match (r : registry) (buf : list byte)
  (pre post : list entry) (e : entry) :
  registry_ok r ->
  Z.of_nat (length buf) < MAX_STR_LEN ->
  topic_mtx r = false ->
  topics r = pre ++ e :: post ->
  cstr (e_name e) = cstr buf ->
  (forall e', In e' pre -> cstr (e_name e') <> cstr buf) ->
  exists r',
    remove_topic_store r buf = (Returns (Z.of_nat (length buf)), r') /\
    topics r' = pre ++ post /\
    topic_mtx r' = false /\
    nth (Z.to_nat (e_id e)) (minor_nums r') 0 = 0 /\
    forall e', In e' (pre ++ post) ->
               nth (Z.to_nat (e_id e')) (minor_nums r') 0 <> 0.
Proof.
  intros Hok Hfit Hmtx Hts Hmatch Hpre.
  eexists. split.
  - apply (remove_topic_store_found r buf pre post e); auto.
    + now apply same_name_iff.
    + intros e' Hin.
      destruct (same_name (e_name e') buf) eqn:Hsame; [| reflexivity].
      apply same_name_iff in Hsame. now apply Hpre in Hin.
  - cbn [topics topic_mtx minor_nums].
    destruct r as [m ts b]. cbn [topics minor_nums topic_mtx] in *. subst ts.
    pose proof (unlink_registry_ok m pre post e b false Hok) as [_ Hids' _].
    destruct Hok as [Hlen Hids _]. cbn [topics minor_nums] in *.
    repeat split; auto.
    + apply nth_release_same; [exact Hlen |].
      apply Hids. apply in_or_app. right. now left.
    + intros e' Hin. now apply Hids'.
Qed.

(** "abc" is removed from the registry that holds it. *)
Lemma remove_takes_newest_match_witness :
  exists r',
    remove_topic_store one_topic name_abc = (Returns 3, r') /\
    topics r' = [] /\ topic_mtx r' = false /\
    nth 0 (minor_nums r') 0 = 0.
Proof.
  destruct (remove_takes_newest_match
              one_topic name_abc [] []
              (mkEntry (filled_name name_abc) 0 zeroed_topic))
    as (r' & Hr & Hts & Hm & Hfree & _).
  - exact one_topic_ok.
  - vm_compute. reflexivity.
  - reflexivity.
  - reflexivity.
  - vm_compute. reflexivity.
  - intros e' [].
  - exists r'. repeat split; assumption.
Defined.

(** X15.  A topic whose name fills the array (no NUL among its [MAX_STR_LEN]
    bytes) cannot be removed by name: whatever is written to
    [remove_topic], the topic is still in the list afterwards; and
    [name_show] on it runs past the array. *)
Theorem full_length_name_stays (r : registry) (buf : list byte) (e : entry) :
  In e (topics r) ->
  Z.of_nat (length (e_name e)) = MAX_STR_LEN ->
  existsb (Byte.eqb x00) (e_name e) = false ->
  In e (topics (snd (remove_topic_store r buf))) /\
  name_show e = (Oops, []).
Proof.
  intros Hin Hlen Hfull. split; [| unfold name_show; now rewrite Hfull].
  assert (Hcstr : length (cstr (e_name e)) = length (e_name e)).
  { pose proof (length_cstr (e_name e)).
    destruct (Nat.eq_dec (length (cstr (e_name e))) (length (e_name e)))
      as [Heq | Hne]; [exact Heq |].
    assert (Hlt : (length (cstr (e_name e)) < length (e_name e))%nat) by lia.
    apply cstr_terminated in Hlt. congruence. }
  destruct (remove_topic_store r buf) as [o r'] eqn:Hr. cbn [snd].
  destruct (remove_topic_store_inv _ _ _ _ Hr)
    as [(-> & _) | (Hfit & _ & _ & pre & e0 & post & Hts & Hmatch & _ & ->)];
    [exact Hin |].
  cbn [topics]. rewrite Hts in Hin.
  apply in_app_or in Hin. apply in_or_app.
  destruct Hin as [Hin | [<- | Hin]]; auto.
  exfalso. apply same_name_iff in Hmatch.
  pose proof (length_cstr buf). rewrite Hmatch in Hcstr. lia.
Qed.

(** The topic created with [long_name]. *)
Lemma full_length_name_stays_witness :
  name_show (mkEntry long_name 0 zeroed_topic) = (Oops, []).
Proof.
  apply (proj2 (full_length_name_stays
                  (snd (create_topic_store all_ok empty_registry long_name))
                  name_abc (mkEntry long_name 0 zeroed_topic)
                  (or_introl eq_refl) eq_refl eq_refl)).
Defined.

(** X16.  Unloading the module empties the list and frees the minor number of
    every topic that was in it; the other entries of the array are left as
    they were. *)
Theorem exit_frees_every_topic (r : registry) :
  registry_ok r ->
  topics (kpub_exit r) = [] /\
  (forall e, In e (topics r) ->
             nth (Z.to_nat (e_id e)) (minor_nums (kpub_exit r)) 0 = 0) /\
  (forall q, 0 <= q -> (forall e, In e (topics r) -> e_id e <> q) ->
             nth (Z.to_nat q) (minor_nums (kpub_exit r)) 0 =
             nth (Z.to_nat q) (minor_nums r) 0).
Proof.
  unfold kpub_exit. destruct r as [m ts b]. cbn [topics].
  revert m. induction ts as [| e rest IH]; intros m Hok.
  - cbn. repeat split; auto. intros e [].
  - cbn [length exit_loop]. unfold delete_topic at 1.
    cbn [topics nth_error minor_nums topic_mtx unlink].
    pose proof (unlink_registry_ok m [] rest e b b Hok) as Hok'.
    cbn [app] in Hok'.
    destruct (IH _ Hok') as (Hempty & Hfreed & Hkept).
    destruct Hok as [Hlen Hids Hnd]. cbn [topics minor_nums map] in *.
    destruct (Hids e (or_introl eq_refl)) as [Hrange _].
    split; [exact Hempty |]. split.
    + intros e' [<- | Hin]; [| now apply Hfreed].
      rewrite Hkept; [now apply nth_release_same | lia |].
      intros e' Hin Heq. apply NoDup_cons_iff in Hnd. apply (proj1 Hnd).
      rewrite <- Heq. now apply in_map.
    + intros q Hq Hnot. rewrite Hkept; [| exact Hq |].
      * apply nth_release_other; try lia.
        intros Heq. apply (Hnot e); [now left | auto].
      * intros e' Hin. apply Hnot. now right.
Qed.

(** The module is unloaded while "abc" exists. *)
Lemma exit_frees_every_topic_witness : topics (kpub_exit one_topic) = [].
Proof.
  apply (proj1 (exit_frees_every_topic one_topic one_topic_ok)).
Defined.

(** * More on the file operations *)

(** ** Opening and closing *)

(** X17.  An open that asks for both reading and writing, or for neither, is
    refused with [-EACCES]: it counts no file and moves nothing, but on a
    configured topic it has allocated the buffer by then. *)
Theorem open_bad_mode_allocates (t : topic) (f : file) :
  msg_size t <> 0 -> msg_count t <> 0 ->
  reader_mode f = false -> writer_mode f = false ->
  exists t',
    kpub_open true t f = (- EACCES, t', f) /\
    nreaders t' = nreaders t /\ nwriters t' = nwriters t /\
    wp t' = wp t /\ rp t' = rp t /\ len t' = len t /\
    rcount t' = rcount t /\
    msg_size t' = msg_size t /\ msg_count t' = msg_count t /\
    buf t' = match buf t with
             | Some b => Some b
             | None => Some (repeat x00 (Z.to_nat (size t)))
             end.
Proof.
  intros Hs Hc Hr Hw. unfold kpub_open.
  apply Z.eqb_neq in Hs. apply Z.eqb_neq in Hc. rewrite Hs, Hc, Hr, Hw.
  cbn [orb].
  destruct (buf t) as [b |]; eexists; (split; [reflexivity |]); cbn;
    repeat split.
Qed.

(** An open for reading and writing on the topic of the examples. *)
Lemma open_bad_mode_allocates_witness :
  exists t',
    kpub_open true fresh_topic (mkFile 3 0 0) = (- EACCES, t', mkFile 3 0 0) /\
    nreaders t' = 0 /\ nwriters t' = 0 /\
    buf t' = Some (repeat x00 16).
Proof.
  destruct (open_bad_mode_allocates fresh_topic (mkFile 3 0 0))
    as (t' & Ho & Hr & Hw & _ & _ & _ & _ & _ & _ & Hb).
  - vm_compute. discriminate.
  - vm_compute. discriminate.
  - reflexivity.
  - reflexivity.
  - exists t'. repeat split; assumption.
Defined.

(** X18.  An open never clears the buffer: the bytes of an allocated buffer are
    kept, and the first open that succeeds allocates [size] zero bytes.
    The size of the topic does not change. *)
Theorem open_keeps_buffer (ok : bool) (t : topic) (f : file) (r : Z)
  (t' : topic) (f' : file) :
  kpub_open ok t f = (r, t', f') ->
  size t' = size t /\
  (forall b, buf t = Some b -> buf t' = Some b) /\
  (r = 0 -> buf t = None ->
   buf t' = Some (repeat x00 (Z.to_nat (size t)))).
Proof.
  unfold kpub_open. intros H.
  destruct ((msg_size t =? 0) || (msg_count t =? 0)).
  { injection H as <- <- <-. repeat split; auto.
    unfold ENOMEM. lia. }
  destruct (buf t) as [b |] eqn:Hb.
  - destruct (reader_mode f); [| destruct (writer_mode f)];
      injection H as <- <- <-; unfold size; cbn;
      repeat split; auto; discriminate.
  - destruct ok.
    + destruct (reader_mode f); [| destruct (writer_mode f)];
        injection H as <- <- <-; unfold size; cbn;
        repeat split; auto; try discriminate.
    + injection H as <- <- <-. repeat split; auto; try discriminate.
Qed.

(** A second reader opens after eight bytes have been published. *)
Lemma open_keeps_buffer_witness :
  buf (top (after late_open)) = buf (top (after published)).
Proof.
  destruct (open_keeps_buffer
              true (top (after published)) (mkFile FMODE_READ O_RDONLY 0)
              0 (top (after late_open)) (file_of (after late_open) 2))
    as (_ & H & _).
  - vm_compute. reflexivity.
  - apply (H (msgA ++ repeat x00 8)). vm_compute. reflexivity.
Defined.

(** X19.  Closing the file an open returned takes the count of readers or of
    writers back to what it was before the open, and touches nothing else:
    [rp], [len], [wp], [rcount] and the buffer stay as the open left them.
    In particular a reader that closes leaves [rcount] alone. *)
Theorem release_undoes_open_count (ok : bool) (t t1 : topic) (f f1 : file) :
  is_u32 (nreaders t) -> is_u32 (nwriters t) ->
  kpub_open ok t f = (0, t1, f1) ->
  exists t2,
    kpub_release t1 f1 = (0, t2) /\
    nreaders t2 = nreaders t /\ nwriters t2 = nwriters t /\
    rp t2 = rp t1 /\ len t2 = len t1 /\ wp t2 = wp t1 /\
    rcount t2 = rcount t1 /\ buf t2 = buf t1 /\
    msg_size t2 = msg_size t1 /\ msg_count t2 = msg_count t1.
Proof.
  unfold is_u32. intros Hnr Hnw H. unfold kpub_open in H.
  assert (Hback : forall n, 0 <= n < 2 ^ 32 -> u32 (u32 (n + 1) - 1) = n).
  { intros n Hn. unfold u32. rewrite Zminus_mod_idemp_l.
    replace (n + 1 - 1) with n by lia. now apply Z.mod_small. }
  destruct ((msg_size t =? 0) || (msg_count t =? 0)); [discriminate |].
  destruct (match buf t with
            | Some b => Some b
            | None => if ok then Some (repeat x00 (Z.to_nat (size t))) else None
            end) as [b |]; [| discriminate].
  destruct (reader_mode f) eqn:Hr; [| destruct (writer_mode f) eqn:Hw].
  - injection H as <- <-. unfold kpub_release, reader_mode in *.
    cbn [f_mode set_f_pos]. rewrite Hr. eexists. split; [reflexivity |].
    cbn. repeat split; auto.
  - injection H as <- <-. unfold kpub_release, reader_mode, writer_mode in *.
    cbn [f_mode set_f_pos]. rewrite Hr, Hw. eexists. split; [reflexivity |].
    cbn. repeat split; auto.
  - discriminate.
Qed.

(** The second reader of [late_open] closes again. *)
Lemma release_undoes_open_count_witness :
  exists t2,
    kpub_release (top (after late_open)) (file_of (after late_open) 2)
    = (0, t2) /\
    nreaders t2 = 1 /\ rcount t2 = rcount (top (after late_open)).
Proof.
  destruct (release_undoes_open_count
              true (top (after published)) (top (after late_open))
              (mkFile FMODE_READ O_RDONLY 0) (file_of (after late_open) 2))
    as (t2 & Hrel & Hnr & _ & _ & _ & _ & Hrc & _).
  - vm_compute. split; [discriminate | reflexivity].
  - vm_compute. split; [discriminate | reflexivity].
  - vm_compute. reflexivity.
  - exists t2. repeat split; assumption.
Defined.

(** ** Calls that do not go through *)





(** ** Reads and writes inside the buffer *)

(** A read on a well-formed topic whose [wp] is away from the cursor: what
    it returns and where it leaves the cursor. *)
Lemma kpub_read_slice (t : topic) (f : file) (count : Z) (b : list byte) :
  0 <= wp t < size t -> 0 <= f_pos f < size t ->
  buf t = Some b -> Z.of_nat (length b) = size t ->
  0 <= count ->
  f_pos f <> wp t ->
  let n := Z.min count (if wp t >? f_pos f
                        then wp t - f_pos f else size t - f_pos f) in
  exists t',
    kpub_read t f count =
      (Returns n, t', set_f_pos f (wrap_at (size t) (f_pos f + n)),
       firstn (Z.to_nat n) (skipn (Z.to_nat (f_pos f)) b)) /\
    0 <= n /\ f_pos f + n <= size t /\
    buf t' = Some b /\ wp t' = wp t /\ size t' = size t.
Proof.
  intros Hwp Hoff Hb Hlenb Hc Hne n.
  pose proof (size_range t) as Hrange.
  assert (Hn : 0 <= n /\ f_pos f + n <= size t).
  { subst n. destruct (Z.gtb_spec (wp t) (f_pos f)); lia. }
  assert (Hn' : (if wp t >? f_pos f
                 then Z.min count (u64 (wp t - f_pos f))
                 else Z.min count (u64 (size t - f_pos f))) = n).
  { subst n. destruct (Z.gtb_spec (wp t) (f_pos f));
      rewrite u64_small by lia; reflexivity. }
  unfold kpub_read. cbv zeta.
  destruct (Z.eqb_spec (f_pos f) (wp t)); [contradiction |].
  rewrite Hb, Hn'. rewrite (in_buffer_fits b (f_pos f) n) by lia.
  cbn [negb]. rewrite (u64_small (f_pos f + n)) by lia.
  rewrite (s64_small (wrap_at (size t) (f_pos f + n)))
    by (pose proof (wrap_at_below (size t) (f_pos f + n)); lia).
  eexists. split; [reflexivity |].
  split; [apply Hn |]. split; [apply Hn |].
  destruct (u32 (rcount t - 1) =? 0); unfold size;
    cbn [buf wp msg_size msg_count]; auto.
Qed.

(** X22.  A read that goes through returns exactly [n] bytes of the buffer,
    starting at the cursor, where [n] is the count asked for cut down to
    what lies between the cursor and [wp], or between the cursor and the
    end of the buffer when [wp] is not ahead of it.  It reads nothing
    outside the buffer, leaves the buffer and [wp] alone, and advances the
    cursor by [n] modulo the size. *)
Theorem read_returns_buffer_slice (t : topic) (f : file) (count : Z)
  (b : list byte) :
  0 <= wp t < size t -> 0 <= f_pos f < size t ->
  buf t = Some b -> Z.of_nat (length b) = size t ->
  0 <= count ->
  f_pos f <> wp t ->
  exists n t' f' out,
    kpub_read t f count = (Returns n, t', f', out) /\
    n = Z.min count (if wp t >? f_pos f
                     then wp t - f_pos f else size t - f_pos f) /\
    out = firstn (Z.to_nat n) (skipn (Z.to_nat (f_pos f)) b) /\
    Z.of_nat (length out) = n /\
    f_pos f + n <= size t /\
    f_pos f' = (f_pos f + n) mod size t /\
    buf t' = Some b /\ wp t' = wp t.
Proof.
  intros Hwp Hoff Hb Hlen Hc Hne.
  destruct (kpub_read_slice t f count b Hwp Hoff Hb Hlen Hc Hne)
    as (t' & Hread & Hn & Hfit & Hb' & Hwp' & _).
  do 4 eexists. split; [exact Hread |].
  repeat split; auto.
  - rewrite length_firstn, length_skipn. lia.
  - cbn [f_pos set_f_pos]. apply wrap_at_mod; lia.
Qed.

(** The reader reads the eight bytes of [published]. *)
Lemma read_returns_buffer_slice_witness :
  exists n t' f' out,
    kpub_read (top (after published)) (file_of (after published) 1) 8 =
      (Returns n, t', f', out) /\
    n = 8 /\ out = msgA /\ f_pos f' = 8.
Proof.
  destruct (read_returns_buffer_slice
              (top (after published)) (file_of (after published) 1) 8
              (msgA ++ repeat x00 8))
    as (n & t' & f' & out & Hread & Hn & Hout & _ & _ & Hpos & _).
  - vm_compute. split; [discriminate | reflexivity].
  - vm_compute. split; [discriminate | reflexivity].
  - reflexivity.
  - reflexivity.
  - lia.
  - vm_compute. discriminate.
  - exists n, t', f', out. subst n out. repeat split; auto.
Defined.

(** X23.  Data that wraps round the end of the buffer comes out in two reads:
    with [wp] behind the cursor, a first read returns the bytes from the
    cursor to the end of the buffer and takes the cursor to 0, and a second
    read returns the bytes from 0 to [wp] and leaves the reader caught
    up. *)
Theorem wrapped_data_takes_two_reads (t : topic) (f : file) (c1 c2 : Z)
  (b : list byte) :
  0 < wp t < f_pos f -> f_pos f < size t ->
  buf t = Some b -> Z.of_nat (length b) = size t ->
  size t - f_pos f <= c1 -> wp t <= c2 ->
  exists t1 f1 t2 f2,
    kpub_read t f c1 =
      (Returns (size t - f_pos f), t1, f1, skipn (Z.to_nat (f_pos f)) b) /\
    f_pos f1 = 0 /\
    kpub_read t1 f1 c2 =
      (Returns (wp t), t2, f2, firstn (Z.to_nat (wp t)) b) /\
    f_pos f2 = wp t2 /\ wp t2 = wp t.
Proof.
  intros Hwp Hoff Hb Hlen Hc1 Hc2.
  destruct (kpub_read_slice t f c1 b) as (t1 & Hr1 & _ & _ & Hb1 & Hwp1 & Hsz1);
    try lia; auto.
  destruct (Z.gtb_spec (wp t) (f_pos f)) as [Hgt | _]; [lia |].
  rewrite Z.min_r in Hr1 by lia.
  replace (f_pos f + (size t - f_pos f)) with (size t) in Hr1 by lia.
  unfold wrap_at in Hr1. rewrite Z.eqb_refl in Hr1.
  rewrite firstn_all2 in Hr1 by (rewrite length_skipn; lia).
  destruct (kpub_read_slice t1 (set_f_pos f 0) c2 b)
    as (t2 & Hr2 & _ & _ & Hb2 & Hwp2 & _);
    cbn [f_pos set_f_pos]; try lia; auto.
  cbn [f_pos set_f_pos] in Hr2. rewrite Hwp1, Hsz1 in Hr2.
  destruct (Z.gtb_spec (wp t) 0) as [_ | Hle]; [| lia].
  rewrite Z.sub_0_r, Z.min_r, Z.add_0_l in Hr2 by lia.
  cbn [Z.to_nat skipn] in Hr2.
  exists t1, (set_f_pos f 0). do 2 eexists.
  split; [exact Hr1 |]. split; [reflexivity |].
  split; [exact Hr2 |]. split; [| congruence].
  cbn [f_pos set_f_pos]. unfold wrap_at.
  destruct (Z.eqb_spec (wp t) (size t)); [lia | congruence].
Qed.

(** The reader of [wrapped] takes the eight bytes up to the end of the
    buffer, then the four bytes at its start. *)
Lemma wrapped_data_takes_two_reads_witness :
  exists t1 f1 t2 f2,
    kpub_read (top (after wrapped)) (file_of (after wrapped) 1) 8 =
      (Returns 8, t1, f1, msgB) /\
    f_pos f1 = 0 /\
    kpub_read t1 f1 4 = (Returns 4, t2, f2, [x31; x32; x33; x34]) /\
    f_pos f2 = wp t2 /\ wp t2 = 4.
Proof.
  apply (wrapped_data_takes_two_reads
           (top (after wrapped)) (file_of (after wrapped) 1) 8 4
           ([x31; x32; x33; x34; x05; x06; x07; x08] ++ msgB)).
  - vm_compute. split; reflexivity.
  - vm_compute. reflexivity.
  - reflexivity.
  - reflexivity.
  - vm_compute. discriminate.
  - vm_compute. discriminate.
Defined.

Lemma firstn_copy_in (b : list byte) (w : Z) (data : list byte) :
  0 <= w <= Z.of_nat (length b) ->
  firstn (Z.to_nat w) (copy_in b w data) = firstn (Z.to_nat w) b.
Proof.
  intros Hw. unfold copy_in.
  assert (Hlen : length (firstn (Z.to_nat w) b) = Z.to_nat w)
    by (rewrite length_firstn; lia).
  rewrite firstn_app, Hlen, Nat.sub_diag. cbn [firstn].
  rewrite app_nil_r. apply firstn_all2. lia.
Qed.

Lemma skipn_copy_in (b : list byte) (w : Z) (data : list byte) :
  0 <= w <= Z.of_nat (length b) ->
  skipn (Z.to_nat w + length data) (copy_in b w data) =
  skipn (Z.to_nat w + length data) b.
Proof.
  intros Hw. unfold copy_in.
  assert (Hlen : length (firstn (Z.to_nat w) b) = Z.to_nat w)
    by (rewrite length_firstn; lia).
  rewrite skipn_app, Hlen, skipn_all2 by lia. cbn [app].
  replace (Z.to_nat w + length data - Z.to_nat w)%nat with (length data) by lia.
  rewrite skipn_app, Nat.sub_diag, skipn_all. reflexivity.
Qed.

(** X24.  A write that is accepted takes the first [n] bytes of the user buffer,
    never more than were offered and never past the end of the buffer, and
    puts them at [wp]: the bytes before [wp] and from [wp + n] on are as
    they were, the buffer keeps its length, and [wp] advances by [n]
    modulo the size. *)
Theorem write_stays_in_bounds (t : topic) (f : file) (data : list byte)
  (n : Z) (t' : topic) (taken b : list byte) :
  0 <= wp t < size t -> 0 <= f_pos f < size t ->
  buf t = Some b -> Z.of_nat (length b) = size t ->
  kpub_write t f data = (Returns n, t', taken) ->
  0 <= n ->
  n <= Z.of_nat (length data) /\ wp t + n <= size t /\
  taken = firstn (Z.to_nat n) data /\ Z.of_nat (length taken) = n /\
  wp t' = (wp t + n) mod size t /\
  exists b',
    buf t' = Some b' /\ length b' = length b /\
    firstn (Z.to_nat (wp t)) b' = firstn (Z.to_nat (wp t)) b /\
    firstn (Z.to_nat n) (skipn (Z.to_nat (wp t)) b') = taken /\
    skipn (Z.to_nat (wp t + n)) b' = skipn (Z.to_nat (wp t + n)) b.
Proof.
  intros Hwp Hoff Hb Hlen Hw Hn.
  pose proof (size_range t) as Hrange.
  destruct (kpub_write_shape _ _ _ _ _ _ Hw Hn) as (b0 & Hb0 & Htaken & Hb').
  rewrite Hb in Hb0. injection Hb0 as <-.
  destruct (kpub_write_accepts _ _ _ _ _ _ Hw Hn)
    as (_ & _ & _ & Hwp' & _).
  pose proof (kpub_write_clamp _ _ _ _ _ _ Hw Hn) as Hclamp.
  destruct (write_clamp_fits (size t) (wp t) (f_pos f)
              (Z.of_nat (length data))) as [Hle Hfit]; try lia.
  rewrite <- Hclamp in Hle, Hfit.
  assert (Hlt : length taken = Z.to_nat n)
    by (rewrite Htaken, length_firstn; lia).
  repeat split; auto; try lia.
  - rewrite Hwp', (u32_small (wp t + n)) by lia. apply wrap_at_mod; lia.
  - exists (copy_in b (wp t) taken). repeat split; auto.
    + apply length_copy_in; lia.
    + apply firstn_copy_in. lia.
    + rewrite <- Hlt. apply firstn_skipn_copy_in; lia.
    + replace (Z.to_nat (wp t + n)) with (Z.to_nat (wp t) + length taken)%nat
        by lia.
      apply skipn_copy_in. lia.
Qed.

(** The first write of eight bytes. *)
Lemma write_stays_in_bounds_witness :
  wp (top (after published)) = (0 + 8) mod 16.
Proof.
  destruct (write_stays_in_bounds
              (top (after opened)) (file_of (after opened) 0) msgA 8
              (top (after published)) msgA (repeat x00 16))
    as (_ & _ & _ & _ & H & _).
  - vm_compute. split; [discriminate | reflexivity].
  - vm_compute. split; [discriminate | reflexivity].
  - reflexivity.
  - reflexivity.
  - vm_compute. reflexivity.
  - lia.
  - exact H.
Defined.

(** X25.  A write of no bytes on a topic that is not full is accepted: it
    returns 0 and leaves the buffer, [wp] and [len] as they were, but it
    sets [rcount] back to [nreaders] like any other write. *)
Theorem empty_write_rearms_gate (t : topic) (f : file) (b : list byte) :
  msg_size t <> 0 -> len t <> size t ->
  buf t = Some b ->
  0 <= wp t < size t -> is_u32 (len t) ->
  kpub_write t f [] =
  (Returns 0,
   mkTopic (msg_size t) (msg_count t) (nreaders t) (nwriters t)
           (wp t) (rp t) (len t) (nreaders t) (Some b),
   []).
Proof.
  unfold is_u32. intros Hs Hroom Hb Hwp Hlen.
  pose proof (size_range t) as Hrange.
  unfold kpub_write. cbn [length Z.of_nat]. cbv zeta.
  apply Z.eqb_neq in Hs. apply Z.eqb_neq in Hroom.
  rewrite Hs, Hroom, Hb, Zmod_0_l. cbn [Z.eqb negb].
  destruct (Z.gtb_spec 0 (size t)); [lia |].
  assert (Hn : (if wp t >=? f_pos f
                then Z.min 0 (u64 (size t - wp t))
                else Z.min 0 (u64 (f_pos f - wp t))) = 0).
  { pose proof (u64_range (size t - wp t)).
    pose proof (u64_range (f_pos f - wp t)).
    destruct (wp t >=? f_pos f); lia. }
  rewrite Hn. cbn [Z.to_nat firstn].
  rewrite !Z.add_0_r, (u32_small (wp t)), (u32_small (len t)) by lia.
  unfold wrap_at. destruct (Z.eqb_spec (wp t) (size t)); [lia |].
  unfold copy_in. cbn [length app]. rewrite Nat.add_0_r, firstn_skipn.
  reflexivity.
Qed.

(** A write of no bytes after the reader has taken four of eight bytes. *)
Lemma empty_write_rearms_gate_witness :
  rcount (top (after half_read)) = 0 /\
  rcount (snd (fst (kpub_write (top (after half_read))
                               (file_of (after half_read) 0) []))) = 1.
Proof.
  split; [reflexivity |].
  rewrite (empty_write_rearms_gate
             (top (after half_read)) (file_of (after half_read) 0)
             (msgA ++ repeat x00 8)).
  - reflexivity.
  - vm_compute. discriminate.
  - vm_compute. discriminate.
  - reflexivity.
  - vm_compute. split; [discriminate | reflexivity].
  - vm_compute. split; [discriminate | reflexivity].
Defined.

(** X26.  A write that fills the whole buffer from offset 0 stalls both sides:
    on a topic whose buffer has the bytes of its capacity, it is accepted
    in full and brings [wp] back to 0 with [len] at the size, so that a
    reader whose cursor is at 0 finds nothing to read and every further
    write finds no room. *)
Theorem filling_write_stalls_both (t : topic) (fw fr : file)
  (data b : list byte) :
  0 < size t -> msg_size t <> 0 ->
  wp t = 0 -> f_pos fw = 0 -> f_pos fr = 0 -> len t = 0 ->
  buf t = Some b -> Z.of_nat (length b) = size t ->
  Z.of_nat (length data) = size t -> size t mod msg_size t = 0 ->
  exists t1,
    kpub_write t fw data = (Returns (size t), t1, data) /\
    wp t1 = 0 /\ len t1 = size t /\
    (forall c,
       kpub_read t1 fr c =
       ((if nonblock fr then Returns (- EAGAIN) else Sleeps), t1, fr, [])) /\
    (forall fw' data',
       Z.of_nat (length data') mod msg_size t = 0 ->
       Z.of_nat (length data') <= size t ->
       kpub_write t1 fw' data' =
       ((if nonblock fw' then Returns (- EAGAIN) else Sleeps), t1, [])).
Proof.
  intros Hsz Hs Hwp Hfw Hfr Hlen Hb Hlenb Hdata Hmul.
  pose proof (size_range t) as Hrange.
  assert (Hw : exists t1, kpub_write t fw data = (Returns (size t), t1, data) /\
                          wp t1 = 0 /\ len t1 = size t /\
                          msg_size t1 = msg_size t /\ size t1 = size t).
  { unfold kpub_write. cbv zeta. rewrite Hdata, Hmul, Hlen, Hwp, Hb.
    apply Z.eqb_neq in Hs. rewrite Hs, Z.eqb_refl. cbn [negb].
    destruct (Z.gtb_spec (size t) (size t)); [lia |].
    destruct (Z.eqb_spec 0 (size t)); [lia |].
    destruct (Z.geb_spec 0 (f_pos fw)); [| lia].
    rewrite Z.sub_0_r, (u64_small (size t)), Z.min_id by lia.
    rewrite (in_buffer_fits b 0 (size t)) by lia. cbn [negb].
    rewrite firstn_all2 by lia.
    rewrite !Z.add_0_l, (u32_small (size t)) by lia.
    unfold wrap_at. rewrite Z.eqb_refl.
    eexists. split; [reflexivity |]. unfold size. cbn. auto. }
  destruct Hw as (t1 & Hw & Hwp1 & Hlen1 & Hs1 & Hsz1).
  exists t1. split; [exact Hw |]. split; [exact Hwp1 |]. split; [exact Hlen1 |].
  split.
  - intros c. unfold kpub_read. rewrite Hfr, Hwp1. reflexivity.
  - intros fw' data' Hmul' Hfit. unfold kpub_write. cbv zeta.
    rewrite Hs1, Hsz1, Hlen1, Hmul'.
    apply Z.eqb_neq in Hs. rewrite Hs, !Z.eqb_refl. cbn [negb].
    destruct (Z.gtb_spec (Z.of_nat (length data')) (size t)); [lia |].
    reflexivity.
Qed.

(** The writer fills the sixteen bytes in one call. *)
Lemma filling_write_stalls_both_witness :
  exists t1,
    kpub_write (top (after opened)) (file_of (after opened) 0) msgC =
      (Returns 16, t1, msgC) /\
    kpub_read t1 (file_of (after opened) 1) 16 =
      (Sleeps, t1, file_of (after opened) 1, []).
Proof.
  destruct (filling_write_stalls_both
              (top (after opened)) (file_of (after opened) 0)
              (file_of (after opened) 1) msgC (repeat x00 16))
    as (t1 & Hw & _ & _ & Hr & _).
  - reflexivity.
  - vm_compute. discriminate.
  - reflexivity.
  - reflexivity.
  - reflexivity.
  - reflexivity.
  - reflexivity.
  - reflexivity.
  - reflexivity.
  - reflexivity.
  - exists t1. split; [exact Hw | exact (Hr 16)].
Defined.

(** ** The counts of readers and writers *)

Lemma count_open_app (p : file -> bool) (fds : list (option file)) (f : file) :
  count_open p (fds ++ [Some f]) = count_open p fds + Z.b2z (p f).
Proof.
  unfold count_open. rewrite filter_app, length_app. cbn [filter open_as].
  destruct (p f); cbn [length Z.b2z Nat.add]; lia.
Qed.

Lemma count_open_set_fd (p : file -> bool) (fds : list (option file))
  (fd : nat) (f : file) (x : option file) :
  get_fd fds fd = Some f ->
  count_open p (set_fd fds fd x) =
  count_open p fds - Z.b2z (p f) + Z.b2z (open_as p x).
Proof.
  unfold get_fd, count_open. revert fd.
  induction fds as [| y rest IH]; intros [| k]; cbn [nth_error];
    try discriminate.
  - destruct y as [g |]; [| discriminate]. intros [= ->].
    cbn [set_fd filter open_as].
    destruct (p f); destruct (open_as p x); cbn [length Z.b2z]; lia.
  - intros Hget. specialize (IH k Hget). cbn [set_fd filter].
    destruct (open_as p y); cbn [length]; lia.
Qed.

Lemma u32_succ (a : Z) : u32 (u32 a + 1) = u32 (a + 1).
Proof. unfold u32. now rewrite Zplus_mod_idemp_l. Qed.

Lemma u32_pred (a : Z) : u32 (u32 a - 1) = u32 (a - 1).
Proof. unfold u32. now rewrite Zminus_mod_idemp_l. Qed.

Lemma modes_exclusive (f : file) : reader_mode f = true -> writer_mode f = false.
Proof.
  unfold reader_mode, writer_mode. intros H.
  apply andb_true_iff in H. destruct H as [_ ->]. reflexivity.
Qed.

(** No outcome of a read changes the counts or the mode of the file. *)
Lemma kpub_read_frame (t : topic) (f : file) (count : Z) (r : outcome)
  (t' : topic) (f' : file) (out : list byte) :
  kpub_read t f count = (r, t', f', out) ->
  nreaders t' = nreaders t /\ nwriters t' = nwriters t /\
  f_mode f' = f_mode f.
Proof.
  unfold kpub_read. intros H.
  destruct (f_pos f =? wp t); [injection H as _ <- <- _; auto |].
  destruct (buf t); [| injection H as _ <- <- _; auto].
  destruct (negb (in_buffer _ _ _)); [injection H as _ <- <- _; auto |].
  injection H as _ <- <- _.
  destruct (u32 (rcount t - 1) =? 0); cbn; auto.
Qed.

(** No outcome of a write changes the counts. *)
Lemma kpub_write_frame (t : topic) (f : file) (data : list byte)
  (r : outcome) (t' : topic) (taken : list byte) :
  kpub_write t f data = (r, t', taken) ->
  nreaders t' = nreaders t /\ nwriters t' = nwriters t.
Proof.
  unfold kpub_write. intros H.
  destruct (msg_size t =? 0); [injection H as _ <- _; auto |].
  destruct (negb _); [injection H as _ <- _; auto |].
  destruct (_ >? _); [injection H as _ <- _; auto |].
  destruct (len t =? size t); [injection H as _ <- _; auto |].
  destruct (buf t); [| injection H as _ <- _; auto].
  destruct (negb (in_buffer _ _ _)); injection H as _ <- _; cbn; auto.
Qed.

Lemma step_counted (s : sys) (o : op) : counted s -> counted (fst (step s o)).
Proof.
  intros (Hr & Hw & Hmodes). unfold counted.
  destruct o as [mode flags | fd | fd count | fd data]; cbn [step].
  - (* open *)
    destruct (kpub_open true (top s) (mkFile mode flags 0))
      as [[r t'] f'] eqn:Hopen.
    unfold kpub_open in Hopen.
    destruct ((msg_size (top s) =? 0) || (msg_count (top s) =? 0)).
    { injection Hopen as <- <- <-. cbn. now repeat split. }
    destruct (match buf (top s) with
              | Some b => Some b
              | None => Some (repeat x00 (Z.to_nat (size (top s))))
              end) as [b |]; [| injection Hopen as <- <- <-; cbn; now repeat split].
    destruct (reader_mode (mkFile mode flags 0)) eqn:Hrm;
      [| destruct (writer_mode (mkFile mode flags 0)) eqn:Hwm];
      injection Hopen as <- <- <-; cbn [Z.eqb fst top fdt nreaders nwriters].
    + assert (Hwm : writer_mode (mkFile mode flags 0) = false)
        by now apply modes_exclusive.
      repeat split.
      * rewrite count_open_app, Hr, u32_succ.
        unfold reader_mode in *. cbn [f_mode set_f_pos] in *. now rewrite Hrm.
      * rewrite count_open_app, Hw.
        unfold writer_mode in *. cbn [f_mode set_f_pos] in *. rewrite Hwm.
        cbn [Z.b2z]. now rewrite Z.add_0_r.
      * intros fd f Hget. unfold get_fd in Hget.
        destruct (nth_error (fdt s ++ [Some (set_f_pos (mkFile mode flags 0) (wp (top s)))]) fd)
          as [[g |] |] eqn:Hnth; try discriminate.
        injection Hget as ->.
        apply nth_error_In, in_app_or in Hnth.
        destruct Hnth as [Hin | [Heq | []]].
        -- apply In_nth_error in Hin. destruct Hin as [k Hk].
           apply (Hmodes k). unfold get_fd. now rewrite Hk.
        -- injection Heq as <-. left. exact Hrm.
    + repeat split.
      * rewrite count_open_app, Hr.
        unfold reader_mode in *. cbn [f_mode set_f_pos] in *. rewrite Hrm.
        cbn [Z.b2z]. now rewrite Z.add_0_r.
      * rewrite count_open_app, Hw, u32_succ.
        unfold writer_mode in *. cbn [f_mode set_f_pos] in *. now rewrite Hwm.
      * intros fd f Hget. unfold get_fd in Hget.
        destruct (nth_error (fdt s ++ [Some (set_f_pos (mkFile mode flags 0) (wp (top s)))]) fd)
          as [[g |] |] eqn:Hnth; try discriminate.
        injection Hget as ->.
        apply nth_error_In, in_app_or in Hnth.
        destruct Hnth as [Hin | [Heq | []]].
        -- apply In_nth_error in Hin. destruct Hin as [k Hk].
           apply (Hmodes k). unfold get_fd. now rewrite Hk.
        -- injection Heq as <-. right. exact Hwm.
    + cbn. now repeat split.
  - (* close *)
    destruct (get_fd (fdt s) fd) as [f |] eqn:Hget; [| cbn; now repeat split].
    unfold kpub_release.
    assert (Hrest : forall fd' f', get_fd (set_fd (fdt s) fd None) fd' = Some f' ->
                                   reader_mode f' = true \/ writer_mode f' = true).
    { intros fd' f' H. apply get_fd_set_fd in H.
      destruct H as [H | H]; [discriminate | now apply (Hmodes fd')]. }
    destruct (reader_mode f) eqn:Hrm; [| destruct (writer_mode f) eqn:Hwm];
      cbn [fst top fdt nreaders nwriters]; repeat split; auto;
      rewrite (count_open_set_fd _ _ _ f) by exact Hget; cbn [open_as Z.b2z].
    + rewrite Hrm, Hr, u32_pred. cbn [Z.b2z]. f_equal. lia.
    + rewrite (modes_exclusive f Hrm), Hw. cbn [Z.b2z]. f_equal. lia.
    + rewrite Hrm, Hr. cbn [Z.b2z]. f_equal. lia.
    + rewrite Hwm, Hw, u32_pred. cbn [Z.b2z]. f_equal. lia.
    + rewrite Hrm, Hr. cbn [Z.b2z]. f_equal. lia.
    + rewrite Hwm, Hw. cbn [Z.b2z]. f_equal. lia.
  - (* read *)
    destruct (get_fd (fdt s) fd) as [f |] eqn:Hget; [| cbn; now repeat split].
    destruct (Z.land (f_mode f) FMODE_READ =? 0); [cbn; now repeat split |].
    destruct (kpub_read (top s) f (Z.of_N count)) as [[[r t'] f'] out] eqn:Hread.
    destruct (kpub_read_frame _ _ _ _ _ _ _ Hread) as (Hnr & Hnw & Hmode).
    assert (Hrm : reader_mode f' = reader_mode f)
      by (unfold reader_mode; now rewrite Hmode).
    assert (Hwm : writer_mode f' = writer_mode f)
      by (unfold writer_mode; now rewrite Hmode).
    cbn [fst top fdt]. repeat split.
    + rewrite Hnr, Hr, (count_open_set_fd _ _ _ f) by exact Hget.
      cbn [open_as]. rewrite Hrm. f_equal. lia.
    + rewrite Hnw, Hw, (count_open_set_fd _ _ _ f) by exact Hget.
      cbn [open_as]. rewrite Hwm. f_equal. lia.
    + intros fd' g H. apply get_fd_set_fd in H.
      destruct H as [[= <-] | H]; [| now apply (Hmodes fd')].
      rewrite Hrm, Hwm. now apply (Hmodes fd).
  - (* write *)
    destruct (get_fd (fdt s) fd) as [f |] eqn:Hget; [| cbn; now repeat split].
    destruct (Z.land (f_mode f) FMODE_WRITE =? 0); [cbn; now repeat split |].
    destruct (kpub_write (top s) f data) as [[r t'] taken] eqn:Hwrite.
    destruct (kpub_write_frame _ _ _ _ _ _ Hwrite) as (Hnr & Hnw).
    cbn [fst top fdt]. repeat split; auto; congruence.
Qed.

(** X27.  In every state the operations reach from a topic that was never
    opened, [nreaders] is the number of files open for reading and
    [nwriters] the number of files open for writing (as [uint32_t]), and
    every open file is a reader or a writer, never both. *)
Theorem counts_match_open_files (sz cnt : Z) (s : sys) :
  reachable (mkSys (mkTopic sz cnt 0 0 0 0 0 0 None) []) s ->
  nreaders (top s) = u32 (count_open reader_mode (fdt s)) /\
  nwriters (top s) = u32 (count_open writer_mode (fdt s)) /\
  forall fd f, get_fd (fdt s) fd = Some f ->
               reader_mode f = negb (writer_mode f).
Proof.
  intros Hreach.
  assert (Hc : counted s).
  { induction Hreach as [| s o _ IH]; [| now apply step_counted].
    repeat split; try reflexivity.
    intros fd f H. unfold get_fd in H. cbn in H.
    destruct fd; discriminate. }
  destruct Hc as (Hr & Hw & Hmodes).
  repeat split; auto.
  intros fd f Hget. destruct (Hmodes fd f Hget) as [H | H].
  - now rewrite H, (modes_exclusive f H).
  - rewrite H. cbn. destruct (reader_mode f) eqn:Hrm; [| reflexivity].
    apply modes_exclusive in Hrm. congruence.
Qed.

(** One writer and one reader are open. *)
Lemma counts_match_open_files_witness :
  nreaders (top (after opened)) = 1 /\ nwriters (top (after opened)) = 1.
Proof.
  destruct (counts_match_open_files 4 4 (after opened) (reachable_after opened))
    as (Hr & Hw & _).
  split; [exact Hr | exact Hw].
Defined.

(** * From creation to the first open *)

(** X28.  A topic that has just been created cannot be opened: the open returns
    [-ENOMEM], and still does once the message size alone is stored.  Once
    a size and a count within their maxima are both stored, the capacity
    is their product (it does not wrap), and the first open succeeds,
    allocates that many zero bytes and places the cursor at 0. *)
Theorem created_topic_opens_once_configured (PAGE_SIZE s c : Z) (f : file) :
  PAGE_SIZE < 2 ^ 26 ->
  0 < s <= PAGE_SIZE -> 0 < c <= MAX_MSG_COUNT ->
  reader_mode f = true \/ writer_mode f = true ->
  let t1 := snd (msg_size_store PAGE_SIZE zeroed_topic s 4) in
  let t2 := snd (msg_count_store t1 c 4) in
  kpub_open true zeroed_topic f = (- ENOMEM, zeroed_topic, f) /\
  fst (msg_size_store PAGE_SIZE zeroed_topic s 4) = 4 /\
  kpub_open true t1 f = (- ENOMEM, t1, f) /\
  fst (msg_count_store t1 c 4) = 4 /\
  size t2 = s * c /\
  exists t3 f3,
    kpub_open true t2 f = (0, t3, f3) /\
    buf t3 = Some (repeat x00 (Z.to_nat (s * c))) /\
    f_pos f3 = 0 /\ wp t3 = 0 /\ len t3 = 0 /\
    nreaders t3 + nwriters t3 = 1.
Proof.
  intros Hpage Hs Hc Hmode t1 t2. unfold MAX_MSG_COUNT in Hc.
  assert (Hus : u32 s = s) by (apply u32_small; lia).
  assert (Huc : u32 c = c) by (apply u32_small; lia).
  assert (Ht1 : msg_size_store PAGE_SIZE zeroed_topic s 4 =
                (4, mkTopic s 0 0 0 0 0 0 0 None)).
  { unfold msg_size_store, MAX_MSG_SIZE. cbn [zeroed_topic nreaders nwriters
      msg_count wp rp len rcount buf Z.gtb Z.compare Pos.compare
      Pos.compare_cont Z.eqb negb orb].
    rewrite Hus. destruct (Z.gtb_spec s PAGE_SIZE); [lia | reflexivity]. }
  assert (Ht2 : msg_count_store (mkTopic s 0 0 0 0 0 0 0 None) c 4 =
                (4, mkTopic s c 0 0 0 0 0 0 None)).
  { unfold msg_count_store, MAX_MSG_COUNT. cbn [nreaders nwriters msg_size
      msg_count wp rp len rcount buf Z.gtb Z.compare Pos.compare
      Pos.compare_cont Z.eqb negb orb].
    rewrite Huc. destruct (Z.gtb_spec c 64); [lia | reflexivity]. }
  subst t1 t2. rewrite Ht1. cbn [fst snd]. rewrite Ht2. cbn [fst snd].
  assert (Hsize : size (mkTopic s c 0 0 0 0 0 0 None) = s * c).
  { unfold size. cbn [msg_size msg_count]. apply u32_small. nia. }
  split; [reflexivity |]. split; [reflexivity |].
  split.
  { unfold kpub_open. cbn [msg_size msg_count Z.eqb].
    now rewrite orb_true_r. }
  split; [reflexivity |]. split; [exact Hsize |].
  unfold kpub_open. cbn [msg_size msg_count buf wp nreaders nwriters rcount].
  destruct (Z.eqb_spec s 0); [lia |]. destruct (Z.eqb_spec c 0); [lia |].
  cbn [orb]. rewrite Hsize.
  destruct (reader_mode f) eqn:Hr.
  - do 2 eexists. split; [reflexivity |]. cbn. repeat split.
  - destruct Hmode as [Hmode | ->]; [discriminate |].
    do 2 eexists. split; [reflexivity |]. cbn. repeat split.
Qed.

(** Four messages of four bytes, pages of 4096 bytes, a reader. *)
Lemma created_topic_opens_once_configured_witness :
  kpub_open true zeroed_topic (mkFile FMODE_READ O_RDONLY 0) =
  (- ENOMEM, zeroed_topic, mkFile FMODE_READ O_RDONLY 0).
Proof.
  pose proof (created_topic_opens_once_configured
                4096 4 4 (mkFile FMODE_READ O_RDONLY 0)
                ltac:(reflexivity) ltac:(lia)
                ltac:(unfold MAX_MSG_COUNT; lia)
                (or_introl eq_refl)) as H.
  cbv zeta in H. exact (proj1 H).
Defined.

(** * A store between two uses *)




(** * Reading the attributes back *)

Lemma digit_value (d : Z) :
  0 <= d < 10 -> Z.of_N (Byte.to_N (digit d)) - 48 = d.
Proof.
  intros Hd.
  assert (Hcases : d = 0 \/ d = 1 \/ d = 2 \/ d = 3 \/ d = 4 \/
                   d = 5 \/ d = 6 \/ d = 7 \/ d = 8 \/ d = 9) by lia.
  repeat (destruct Hcases as [-> | Hcases]; [reflexivity |]).
  subst d. reflexivity.
Qed.

Lemma numeral_value_app (s : list byte) (c : byte) :
  numeral_value (s ++ [c]) =
  numeral_value s * 10 + (Z.of_N (Byte.to_N c) - 48).
Proof. unfold numeral_value. now rewrite fold_left_app. Qed.

Lemma decimal_step (k : nat) (v : Z) :
  decimal (S k) v =
  if v <? 10 then [digit v] else decimal k (v / 10) ++ [digit (v mod 10)].
Proof. reflexivity. Qed.

Lemma decimal_spec (k : nat) (v : Z) :
  0 <= v < 10 ^ Z.of_nat (S k) ->
  numeral_value (decimal (S k) v) = v /\
  (1 <= length (decimal (S k) v) <= S k)%nat.
Proof.
  revert v. induction k as [| k IH]; intros v Hv;
    rewrite !(decimal_step _ v); destruct (Z.ltb_spec v 10) as [Hsmall | Hbig].
  - split; [| cbn; lia].
    unfold numeral_value. cbn [fold_left]. rewrite digit_value by lia. lia.
  - change (10 ^ Z.of_nat 1) with 10 in Hv. lia.
  - split; [| cbn; lia].
    unfold numeral_value. cbn [fold_left]. rewrite digit_value by lia. lia.
  - assert (Hq : 0 <= v / 10 < 10 ^ Z.of_nat (S k)).
    { rewrite (Nat2Z.inj_succ (S k)), Z.pow_succ_r in Hv by lia.
      split; [apply Z.div_pos; lia |].
      apply Z.div_lt_upper_bound; lia. }
    destruct (IH _ Hq) as [Hval Hlen].
    split.
    + rewrite numeral_value_app, Hval, digit_value
        by (apply Z.mod_pos_bound; lia).
      pose proof (Z.div_mod v 10). lia.
    + rewrite length_app. cbn [length]. lia.
Qed.

Lemma digit_is_digit (d : Z) : 0 <= d < 10 -> is_digit (digit d) = true.
Proof.
  intros Hd.
  assert (Hcases : d = 0 \/ d = 1 \/ d = 2 \/ d = 3 \/ d = 4 \/
                   d = 5 \/ d = 6 \/ d = 7 \/ d = 8 \/ d = 9) by lia.
  repeat (destruct Hcases as [-> | Hcases]; [reflexivity |]).
  subst d. reflexivity.
Qed.

Lemma digit_zero (d : Z) : 0 <= d < 10 -> digit d = x30 -> d = 0.
Proof.
  intros Hd H. rewrite <- (digit_value d Hd), H. reflexivity.
Qed.

(** A digit is the character of its value. *)
Lemma is_digit_digit (c : byte) :
  is_digit c = true ->
  0 <= Z.of_N (Byte.to_N c) - 48 < 10 /\
  c = digit (Z.of_N (Byte.to_N c) - 48).
Proof.
  unfold is_digit. intros H. apply andb_true_iff in H. destruct H as [Hlo Hhi].
  apply Z.leb_le in Hlo, Hhi.
  split; [lia |].
  unfold digit.
  replace (Z.to_N (48 + (Z.of_N (Byte.to_N c) - 48))) with (Byte.to_N c) by lia.
  now rewrite Byte.of_to_N.
Qed.

Lemma decimal_digits (k : nat) (v : Z) :
  0 <= v -> forallb is_digit (decimal k v) = true.
Proof.
  revert v. induction k as [| k IH]; intros v Hv; [reflexivity |].
  rewrite decimal_step. destruct (Z.ltb_spec v 10) as [Hsmall | Hbig].
  - cbn [forallb]. rewrite digit_is_digit by lia. reflexivity.
  - rewrite forallb_app, IH by (apply Z.div_pos; lia).
    cbn [forallb]. rewrite digit_is_digit by (apply Z.mod_pos_bound; lia).
    reflexivity.
Qed.

(** The numeral of a number that is not zero does not start with a
    zero. *)
Lemma decimal_head (k : nat) (v : Z) :
  0 < v < 10 ^ Z.of_nat (S k) ->
  decimal (S k) v <> [] /\ hd x00 (decimal (S k) v) <> x30.
Proof.
  revert v. induction k as [| k IH]; intros v Hv;
    rewrite !(decimal_step _ v); destruct (Z.ltb_spec v 10) as [Hsmall | Hbig].
  - split; [discriminate |]. cbn [hd]. intros H.
    apply digit_zero in H; lia.
  - change (10 ^ Z.of_nat 1) with 10 in Hv. lia.
  - split; [discriminate |]. cbn [hd]. intros H.
    apply digit_zero in H; lia.
  - assert (Hq : 0 < v / 10 < 10 ^ Z.of_nat (S k)).
    { rewrite (Nat2Z.inj_succ (S k)), Z.pow_succ_r in Hv by lia.
      split; [apply Z.div_str_pos; lia |].
      apply Z.div_lt_upper_bound; lia. }
    destruct (IH _ Hq) as [Hne Hhd].
    destruct (decimal (S k) (v / 10)) as [| c rest]; [contradiction |].
    split; [discriminate | exact Hhd].
Qed.

Lemma decimal_canonical (k : nat) (v : Z) :
  0 <= v < 10 ^ Z.of_nat (S k) -> canonical_numeral (decimal (S k) v).
Proof.
  intros Hv. unfold canonical_numeral.
  destruct (Z.eq_dec v 0) as [-> | Hnz].
  - rewrite decimal_step. change (0 <? 10) with true. cbv iota.
    split; [discriminate |]. split; [reflexivity |]. intros _. reflexivity.
  - destruct (decimal_head k v) as [Hne Hhd]; [lia |].
    split; [exact Hne |].
    split; [apply decimal_digits; lia | intros H; contradiction].
Qed.

(** The value of a run of digits read on from [acc] is at least [acc]. *)
Lemma digits_value_from (s : list byte) (acc : Z) :
  forallb is_digit s = true -> 0 <= acc ->
  acc <= fold_left (fun a c => a * 10 + (Z.of_N (Byte.to_N c) - 48)) s acc.
Proof.
  revert acc. induction s as [| c rest IH]; intros acc Hall Hacc;
    cbn [fold_left]; [lia |].
  cbn [forallb] in Hall. apply andb_true_iff in Hall. destruct Hall as [Hc Hrest].
  destruct (is_digit_digit c Hc) as [Hd _].
  eapply Z.le_trans; [| apply IH; [exact Hrest | lia]]. lia.
Qed.

(** A run of digits that does not start with a zero stands for a number
    that is not zero. *)
Lemma numeral_value_positive (s : list byte) :
  s <> [] -> forallb is_digit s = true -> hd x00 s <> x30 ->
  0 < numeral_value s.
Proof.
  destruct s as [| c rest]; [contradiction |]. intros _ Hall Hhd.
  cbn [forallb] in Hall. apply andb_true_iff in Hall. destruct Hall as [Hc Hrest].
  destruct (is_digit_digit c Hc) as [Hd Heq].
  cbn [hd] in Hhd.
  assert (Hpos : 0 < Z.of_N (Byte.to_N c) - 48).
  { destruct (Z.eq_dec (Z.of_N (Byte.to_N c) - 48) 0) as [Hz | Hnz]; [| lia].
    rewrite Hz in Heq. contradiction. }
  unfold numeral_value. cbn [fold_left].
  eapply Z.lt_le_trans; [| apply digits_value_from; [exact Hrest | lia]]. lia.
Qed.

(** No other numeral stands for the same number. *)
Lemma numeral_unique (k : nat) (v : Z) (s : list byte) :
  0 <= v < 10 ^ Z.of_nat (S k) ->
  canonical_numeral s -> numeral_value s = v ->
  s = decimal (S k) v.
Proof.
  revert v s. induction k as [| k IH]; intros v s Hv (Hne & Hall & Hzero) Hval;
    destruct (exists_last Hne) as (init & c & ->);
    rewrite forallb_app in Hall; apply andb_true_iff in Hall;
    destruct Hall as [Hinit Hc]; cbn [forallb] in Hc;
    rewrite andb_true_r in Hc;
    destruct (is_digit_digit c Hc) as [Hd Heq];
    rewrite numeral_value_app in Hval;
    rewrite decimal_step;
    (destruct init as [| c0 rest];
     [ cbn [app]; change (numeral_value []) with 0 in Hval;
       destruct (Z.ltb_spec v 10) as [_ | Hbig]; [| lia];
       rewrite Heq; f_equal; f_equal; lia
     | ]);
    assert (Hinit_pos : 0 < numeral_value (c0 :: rest))
      by (apply numeral_value_positive;
          [discriminate | exact Hinit |];
          cbn [hd app] in *; intros H0; specialize (Hzero H0);
          destruct rest; discriminate).
  - change (10 ^ Z.of_nat 1) with 10 in Hv. lia.
  - destruct (Z.ltb_spec v 10) as [Hsmall | _]; [lia |].
    assert (Hq : v / 10 = numeral_value (c0 :: rest)).
    { symmetry. apply (Z.div_unique v 10 _ (Z.of_N (Byte.to_N c) - 48)); lia. }
    assert (Hr : v mod 10 = Z.of_N (Byte.to_N c) - 48).
    { symmetry. apply (Z.mod_unique v 10 (numeral_value (c0 :: rest))); lia. }
    rewrite Hr, <- Heq. f_equal.
    apply IH.
    + rewrite (Nat2Z.inj_succ (S k)), Z.pow_succ_r in Hv by lia.
      split; [apply Z.div_pos; lia |].
      apply Z.div_lt_upper_bound; lia.
    + split; [discriminate |]. split; [exact Hinit |].
      cbn [hd app] in *. intros H0. specialize (Hzero H0).
      destruct rest; discriminate.
    + now symmetry.
Qed.

(** What [snprintf] with the format [%u] and a limit of [MAX_STR_LEN]
    bytes leaves in the buffer and returns, for a [uint32_t]. *)
Lemma snprintf_u_numeral (v : Z) :
  is_u32 v ->
  canonical_numeral (snd (snprintf_u MAX_STR_LEN v)) /\
  numeral_value (snd (snprintf_u MAX_STR_LEN v)) = v /\
  (forall s, canonical_numeral s -> numeral_value s = v ->
             s = snd (snprintf_u MAX_STR_LEN v)) /\
  fst (snprintf_u MAX_STR_LEN v) =
    Z.of_nat (length (snd (snprintf_u MAX_STR_LEN v))) /\
  1 <= fst (snprintf_u MAX_STR_LEN v) <= 10.
Proof.
  unfold is_u32, snprintf_u. intros Hv. cbn [fst snd].
  assert (Hten : 0 <= v < 10 ^ Z.of_nat 10)
    by (replace (10 ^ Z.of_nat 10) with 10000000000 by reflexivity; lia).
  destruct (decimal_spec 9 v Hten) as [Hval Hlen].
  replace (Z.to_nat (MAX_STR_LEN - 1)) with 63%nat by reflexivity.
  rewrite !firstn_all2 by lia.
  split; [now apply decimal_canonical |].
  split; [exact Hval |].
  split; [intros s Hs Hsv; now apply numeral_unique |].
  split; [reflexivity | lia].
Qed.

(** X29.  Reading [msg_size] or [msg_count] back gives the decimal numeral of
    the value, as it is written: digits only, at least one, no zero in
    front unless the value is zero; it is the only such numeral that
    stands for the value stored.  None of it is cut off by the limit of
    [MAX_STR_LEN] bytes, and the result of the call is the number of its
    digits, between one and ten. *)
Theorem show_prints_the_value (t : topic) :
  is_u32 (msg_size t) -> is_u32 (msg_count t) ->
  (canonical_numeral (snd (msg_size_show t)) /\
   numeral_value (snd (msg_size_show t)) = msg_size t /\
   (forall s, canonical_numeral s -> numeral_value s = msg_size t ->
              s = snd (msg_size_show t)) /\
   fst (msg_size_show t) = Z.of_nat (length (snd (msg_size_show t))) /\
   1 <= fst (msg_size_show t) <= 10) /\
  (canonical_numeral (snd (msg_count_show t)) /\
   numeral_value (snd (msg_count_show t)) = msg_count t /\
   (forall s, canonical_numeral s -> numeral_value s = msg_count t ->
              s = snd (msg_count_show t)) /\
   fst (msg_count_show t) = Z.of_nat (length (snd (msg_count_show t))) /\
   1 <= fst (msg_count_show t) <= 10).
Proof.
  intros Hs Hc. unfold msg_size_show, msg_count_show.
  split; now apply snprintf_u_numeral.
Qed.

(** The topic of the examples shows "4" for its message size, and returns
    1. *)
Lemma show_prints_the_value_witness :
  snd (msg_size_show fresh_topic) = [x34] /\
  fst (msg_size_show fresh_topic) = 1.
Proof.
  destruct (show_prints_the_value fresh_topic)
    as ((_ & _ & Huniq & Hlen & _) & _).
  - vm_compute. split; [discriminate | reflexivity].
  - vm_compute. split; [discriminate | reflexivity].
  - assert (H4 : [x34] = snd (msg_size_show fresh_topic)).
    { apply Huniq.
      - split; [discriminate |]. split; [reflexivity | discriminate].
      - reflexivity. }
    rewrite Hlen, <- H4. split; reflexivity.
Defined.
